(** * options_backtester: the execution engine and its summary statistics

    A shallow embedding of [backtester/backtester.py] (class [Backtest]).

    Conventions of the embedding.
    - Prices, quantities and capital are exact integers ([Z], think of the
      smallest currency unit); pandas and numpy hold them as floats, whose
      rounding is not modelled.  Ratios computed by [summary] live in
      [xfloat]: an exact rational, or one of the special values numpy
      produces when it divides by zero.
    - A [pd.DataFrame] of orders is the list of its rows, in row order.
      A row is an [OrderRecord]: its leg columns by name, and the
      [totals] block.
    - A Python exception is a [Raise] in the [result] monad.
    - The [Strategy] and the [HistoricalOptionsData] collaborators are not
      part of this file's source; they are taken as records of the
      attributes and methods [Backtest] calls on them. *)

From Stdlib Require Import ZArith QArith List String Ascii Bool Lia Permutation Sorted.
Import ListNotations.
Local Open Scope string_scope.
Local Open Scope list_scope.
Local Open Scope Z_scope.

(** ** Exceptions *)

Inductive exn : Type :=
| AssertionError
| KeyError
| IndexError
| ValueError
| AttributeError.

Inductive result (A : Type) : Type :=
| Ok (a : A)
| Raise (e : exn).

Arguments Ok {A} a.
Arguments Raise {A} e.

Definition bind {A B : Type} (m : result A) (k : A -> result B) : result B :=
  match m with
  | Ok a => k a
  | Raise e => Raise e
  end.

Notation "x <- m ;; k" := (bind m (fun x => k))
  (at level 61, m at next level, right associativity).

Fixpoint mapM {A B : Type} (f : A -> result B) (l : list A) : result (list B) :=
  match l with
  | [] => Ok []
  | a :: l' =>
      b <- f a ;;
      bs <- mapM f l' ;;
      Ok (b :: bs)
  end.

(** ** Order records *)

(** A Python [str] is the list of its code points.  [code_points] reads
    one off a literal of this file, all of which are ASCII. *)
Definition py_str : Type := list N.

Definition code_points (s : string) : py_str :=
  map N_of_ascii (list_ascii_of_string s).

Module Leg.
(** The seven per-leg columns [run] declares for every leg. *)
Record t : Type := mk
  { contract : string;
    underlying : string;
    expiration : Z;
    type : string;
    strike : Z;
    cost : Z;
    order : py_str }.
End Leg.

Module Totals.
(** The [totals] block: [cost], [qty], [date] as [run] declares them, and
    the [capital] column that [summary] writes ([None]: column absent). *)
Record t : Type := mk
  { cost : Z;
    qty : Z;
    date : Z;
    capital : option Z }.
End Totals.

Record OrderRecord : Type := mkOrder
  { legs : list (string * Leg.t);
    totals : Totals.t }.

Definition DataFrame : Type := list OrderRecord.

(** [row[name]] for a leg column. *)
Fixpoint lookup_leg (name : string) (ls : list (string * Leg.t)) : result Leg.t :=
  match ls with
  | [] => Raise KeyError
  | (n, l) :: ls' => if String.eqb n name then Ok l else lookup_leg name ls'
  end.

(** [row['totals']['cost'] * row['totals']['qty']] *)
Definition total_price (r : OrderRecord) : Z :=
  Totals.cost (totals r) * Totals.qty (totals r).

(** Python's [sum] over a sequence of numbers. *)
Definition sum (l : list Z) : Z := fold_left Z.add l 0.

(** ** Collaborators *)

Definition Schema : Type := string.

Section Engine.

(** The market snapshot handed to the strategy for one period. *)
Variable Options : Type.

(** What [filter_exits] returns: [(exits, exits_mask, total_costs)]. *)
Definition ExitSignals : Type := (DataFrame * list bool * list Z)%type.

Record Strategy : Type := mkStrategy
  { schema : Schema;
    strategy_legs : list string;
    initial_capital : Z;
    filter_entries : Options -> DataFrame -> Z -> DataFrame;
    filter_exits : Options -> DataFrame -> Z -> ExitSignals }.

Record HistoricalOptionsData : Type := mkData
  { data_schema : Schema;
    iter_dates : list (Z * Options);
    iter_months : list (Z * Options) }.

(** ** The engine state: the attributes of a [Backtest] object.

    [__init__] leaves [current_capital] and [trade_log] unset; the first
    is created by the [strategy] setter and the second by [run], and
    nothing below reads either before that.  The record gives them a
    value from the start. *)
Record Backtest : Type := mkBacktest
  { _strategy : option Strategy;
    _data : option HistoricalOptionsData;
    inventory : DataFrame;
    trade_log : DataFrame;
    stop_if_broke : bool;
    current_capital : Z }.

Definition Backtest_init : Backtest :=
  {| _strategy := None;
     _data := None;
     inventory := [];
     trade_log := [];
     stop_if_broke := true;
     current_capital := 0 |}.

(** [@strategy.setter] *)
Definition set_strategy (self : Backtest) (strat : Strategy) : Backtest :=
  {| _strategy := Some strat;
     _data := _data self;
     inventory := inventory self;
     trade_log := trade_log self;
     stop_if_broke := stop_if_broke self;
     current_capital := initial_capital strat |}.

(** [@data.setter] *)
Definition set_data (self : Backtest) (data : HistoricalOptionsData) : Backtest :=
  {| _strategy := _strategy self;
     _data := Some data;
     inventory := inventory self;
     trade_log := trade_log self;
     stop_if_broke := stop_if_broke self;
     current_capital := current_capital self |}.

Definition set_stop_if_broke (self : Backtest) (b : bool) : Backtest :=
  {| _strategy := _strategy self;
     _data := _data self;
     inventory := inventory self;
     trade_log := trade_log self;
     stop_if_broke := b;
     current_capital := current_capital self |}.

(** ** [_process_entry_signals]

    Returns the rows to append and their total price: the first candidate
    as one row, or the empty frame itself and [0]. *)
Definition _process_entry_signals (entry_signals : DataFrame) : DataFrame * Z :=
  match entry_signals with
  | entry :: _ => ([entry], total_price entry)
  | [] => (entry_signals, 0)
  end.

(** ** [_execute_entry] *)
Definition _execute_entry (self : Backtest) (entry_signals : DataFrame) : Backtest :=
  let '(entry, price) := _process_entry_signals entry_signals in
  if negb (stop_if_broke self) || (current_capital self >=? price) then
    {| _strategy := _strategy self;
       _data := _data self;
       inventory := inventory self ++ entry;
       trade_log := trade_log self ++ entry;
       stop_if_broke := stop_if_broke self;
       current_capital := current_capital self - price |}
  else self.

(** [self.inventory.drop(self.inventory[exits_mask].index, inplace=True)],
    for a mask given as a list (or array) of booleans.  A list with one
    boolean per row selects the rows it marks, and those are dropped.
    The empty list selects no column and so every row: all are dropped.
    Any other length is refused with a [ValueError]. *)
Fixpoint drop_marked (inv : DataFrame) (mask : list bool) : result DataFrame :=
  match inv, mask with
  | [], [] => Ok []
  | r :: inv', b :: mask' =>
      rest <- drop_marked inv' mask' ;;
      Ok (if b then rest else r :: rest)
  | _, _ => Raise ValueError
  end.

Definition drop_masked (inv : DataFrame) (mask : list bool) : result DataFrame :=
  match mask with
  | [] => Ok []
  | _ :: _ => drop_marked inv mask
  end.

(** ** [_execute_exit] *)
Definition _execute_exit (self : Backtest) (exit_signals : ExitSignals) : result Backtest :=
  let '(exits, exits_mask, total_costs) := exit_signals in
  inv <- drop_masked (inventory self) exits_mask ;;
  Ok {| _strategy := _strategy self;
        _data := _data self;
        inventory := inv;
        trade_log := trade_log self ++ exits;
        stop_if_broke := stop_if_broke self;
        current_capital := current_capital self - sum total_costs |}.

(** ** [run] *)

(** The body of the [for date, options in data_iterator] loop.  Both
    signals are computed from the inventory as it is when the period
    starts; exits are executed first. *)
Definition period (strat : Strategy) (self : Backtest) (p : Z * Options) : result Backtest :=
  let '(date, options) := p in
  let entry_signals := filter_entries strat options (inventory self) date in
  let exit_signals := filter_exits strat options (inventory self) date in
  self1 <- _execute_exit self exit_signals ;;
  Ok (_execute_entry self1 entry_signals).

Fixpoint run_loop (strat : Strategy) (self : Backtest) (it : list (Z * Options)) : result Backtest :=
  match it with
  | [] => Ok self
  | p :: it' =>
      self1 <- period strat self p ;;
      run_loop strat self1 it'
  end.

(** The state [run] starts its loop from: a fresh inventory and a fresh
    trade log; every other attribute as it is. *)
Definition run_reset (self : Backtest) : Backtest :=
  {| _strategy := _strategy self;
     _data := _data self;
     inventory := [];
     trade_log := [];
     stop_if_broke := stop_if_broke self;
     current_capital := current_capital self |}.

(** [run] returns the engine after the run, together with the value the
    method returns ([self.trade_log]). *)
Definition run (self : Backtest) (monthly : bool) : result (Backtest * DataFrame) :=
  match _data self, _strategy self with
  | Some data, Some strat =>
      if String.eqb (data_schema data) (schema strat) then
        let data_iterator := if monthly then iter_months data else iter_dates data in
        self1 <- run_loop strat (run_reset self) data_iterator ;;
        Ok (self1, trade_log self1)
      else Raise AssertionError
  | _, _ => Raise AssertionError
  end.

End Engine.

Arguments mkStrategy {Options}.
Arguments schema {Options}.
Arguments strategy_legs {Options}.
Arguments initial_capital {Options}.
Arguments filter_entries {Options}.
Arguments filter_exits {Options}.
Arguments mkData {Options}.
Arguments data_schema {Options}.
Arguments iter_dates {Options}.
Arguments iter_months {Options}.
Arguments mkBacktest {Options}.
Arguments _strategy {Options}.
Arguments _data {Options}.
Arguments inventory {Options}.
Arguments trade_log {Options}.
Arguments stop_if_broke {Options}.
Arguments current_capital {Options}.
Arguments Backtest_init {Options}.
Arguments set_strategy {Options}.
Arguments set_data {Options}.
Arguments set_stop_if_broke {Options}.
Arguments _execute_entry {Options}.
Arguments _execute_exit {Options}.
Arguments period {Options}.
Arguments run_loop {Options}.
Arguments run_reset {Options}.
Arguments run {Options}.

(** ** Numbers with numpy's special values

    [Fin q] is an ordinary number; the others are what numpy returns, with
    a warning and no exception, from a division by zero. *)

Inductive xfloat : Type :=
| Fin (q : Q)
| PInf
| NInf
| NaN.

(** [a / b] on numpy scalars. *)
Definition xdivZ (a b : Z) : xfloat :=
  if b =? 0 then
    if 0 <? a then PInf else if a <? 0 then NInf else NaN
  else Fin (inject_Z a / inject_Z b)%Q.

(** [x - 1] and [x * 100]. *)
Definition xsub1 (x : xfloat) : xfloat :=
  match x with
  | Fin q => Fin (q - 1)%Q
  | s => s
  end.

Definition xmul100 (x : xfloat) : xfloat :=
  match x with
  | Fin q => Fin (q * 100)%Q
  | s => s
  end.

Definition xadd (a b : xfloat) : xfloat :=
  match a, b with
  | NaN, _ | _, NaN => NaN
  | PInf, NInf | NInf, PInf => NaN
  | PInf, _ | _, PInf => PInf
  | NInf, _ | _, NInf => NInf
  | Fin p, Fin q => Fin (p + q)%Q
  end.

Definition xsum (l : list xfloat) : xfloat := fold_left xadd l (Fin 0).

(** Division of a sum by a count. *)
Definition xdiv_count (x : xfloat) (n : nat) : xfloat :=
  match n with
  | O => NaN
  | S _ =>
      match x with
      | Fin q => Fin (q / inject_Z (Z.of_nat n))%Q
      | s => s
      end
  end.

Definition is_nan (x : xfloat) : bool :=
  match x with
  | NaN => true
  | _ => false
  end.

Definition is_finite (x : xfloat) : bool :=
  match x with
  | Fin _ => true
  | _ => false
  end.

(** The arithmetic mean of all the values of a series. *)
Definition mean (l : list xfloat) : xfloat := xdiv_count (xsum l) (List.length l).

(** [np.mean] of a pandas [Series] is [Series.mean()], which leaves the
    missing values ([NaN]) out of both the sum and the count. *)
Definition series_mean (l : list xfloat) : xfloat :=
  mean (filter (fun x => negb (is_nan x)) l).

(** ** The steps of [summary] *)

(** [.cumsum()] *)
Fixpoint cumsum_from (acc : Z) (l : list Z) : list Z :=
  match l with
  | [] => []
  | x :: l' => (acc + x) :: cumsum_from (acc + x) l'
  end.

Definition cumsum (l : list Z) : list Z := cumsum_from 0 l.

(** [(-df['totals']['cost'] * df['totals']['qty']).cumsum() + initial_capital] *)
Definition capital_column (initial : Z) (df : DataFrame) : list Z :=
  map (fun c => c + initial)
      (cumsum (map (fun r => - Totals.cost (totals r) * Totals.qty (totals r)) df)).

Definition set_capital (r : OrderRecord) (c : Z) : OrderRecord :=
  {| legs := legs r;
     totals := {| Totals.cost := Totals.cost (totals r);
                  Totals.qty := Totals.qty (totals r);
                  Totals.date := Totals.date (totals r);
                  Totals.capital := Some c |} |}.

(** [df.loc[:, ('totals', 'capital')] = ...]: the column is written into the
    frame itself. *)
Definition write_capital (initial : Z) (df : DataFrame) : DataFrame :=
  map (fun p => set_capital (fst p) (snd p)) (combine df (capital_column initial df)).

Definition get_capital (r : OrderRecord) : result Z :=
  match Totals.capital (totals r) with
  | Some c => Ok c
  | None => Raise KeyError
  end.

(** [groupby(('totals', 'date'))] followed by [.tail(1)] of the capital: the
    groups come out in increasing date order, each with the capital of its
    last row. *)
Fixpoint upsert (d c : Z) (l : list (Z * Z)) : list (Z * Z) :=
  match l with
  | [] => [(d, c)]
  | (d', c') :: l' =>
      if d =? d' then (d, c) :: l'
      else if d <? d' then (d, c) :: l
      else (d', c') :: upsert d c l'
  end.

Definition group_row (groups : list (Z * Z)) (row : Z * Z) : list (Z * Z) :=
  upsert (fst row) (snd row) groups.

Definition daily_capital (df : DataFrame) : result (list (Z * Z)) :=
  rows <- mapM (fun r => c <- get_capital r ;; Ok (Totals.date (totals r), c)) df ;;
  Ok (fold_left group_row rows []).

(** [.pct_change() * 100]: the first value has no predecessor and is
    missing; every other one is [cur / prev - 1], in per cent. *)
Fixpoint pct_from (prev : Z) (l : list Z) : list xfloat :=
  match l with
  | [] => []
  | cur :: l' => xmul100 (xsub1 (xdivZ cur prev)) :: pct_from cur l'
  end.

Definition pct_change100 (l : list Z) : list xfloat :=
  match l with
  | [] => []
  | x :: l' => xmul100 NaN :: pct_from x l'
  end.

Definition daily_returns (df : DataFrame) : result (list xfloat) :=
  daily <- daily_capital df ;;
  Ok (pct_change100 (map snd daily)).

(** [s[i]] on a Python string, for [i >= 0]. *)
Definition str_index (s : py_str) (i : nat) : result N :=
  match nth_error s i with
  | Some c => Ok c
  | None => Raise IndexError
  end.

(** The code point of ['O']. *)
Definition letter_O : N := 79.

(** [row['leg_1']['order'][2] == 'O'] *)
Definition is_entry (row : OrderRecord) : result bool :=
  leg <- lookup_leg "leg_1" (legs row) ;;
  c <- str_index (Leg.order leg) 2 ;;
  Ok (N.eqb c letter_O).

(** [df.apply(lambda row: ..., axis=1)], as the selections of line 113 and
    114 take it: one boolean per row.  On a frame without rows [apply]
    gives back an empty frame, which [df.loc] refuses. *)
Definition entries_mask (df : DataFrame) : result (list bool) :=
  match df with
  | [] => Raise ValueError
  | _ :: _ => mapM is_entry df
  end.

(** [df.loc[mask]] *)
Definition loc (df : DataFrame) (mask : list bool) : DataFrame :=
  map fst (filter snd (combine df mask)).

(** [frame['leg_1']['contract']] *)
Definition contract_of (row : OrderRecord) : result string :=
  leg <- lookup_leg "leg_1" (legs row) ;;
  Ok (Leg.contract leg).

Definition contracts (df : DataFrame) : result (list string) := mapM contract_of df.

(** [(f.loc[f['leg_1']['contract'] == contract] total price).values[0]], on a
    frame given with its contract column; [None] is the [IndexError] of an
    empty selection. *)
Definition first_total (keyed : list (string * OrderRecord)) (contract : string) : option Z :=
  match filter (fun p => String.eqb (fst p) contract) keyed with
  | [] => None
  | p :: _ => Some (total_price (snd p))
  end.

(** The matching loop: one net cost per entry row whose contract also has an
    exit; an [IndexError] inside the [try] skips the contract. *)
Definition match_costs (entries exits : list (string * OrderRecord)) : list Z :=
  flat_map (fun contract =>
              match first_total entries contract, first_total exits contract with
              | Some a, Some b => [a + b]
              | _, _ => []
              end)
           (map fst entries).

Definition round_trips (entries exits : DataFrame) : result (list Z) :=
  ce <- contracts entries ;;
  cx <- contracts exits ;;
  Ok (match_costs (combine ce entries) (combine cx exits)).

(** [np.sum(mask)] of a boolean array: how many are true. *)
Definition count (f : Z -> bool) (l : list Z) : Z := Z.of_nat (List.length (filter f l)).

(** [np.max]: refuses an empty array. *)
Definition np_max (l : list Z) : result Z :=
  match l with
  | [] => Raise ValueError
  | x :: l' => Ok (fold_left Z.max l' x)
  end.

(** [series.iloc[-1]] *)
Definition iloc_last (l : list Z) : result Z :=
  match l with
  | [] => Raise IndexError
  | x :: l' => Ok (last l' x)
  end.

Record Summary : Type := mkSummary
  { total_trades : Z;
    win_number : Z;
    loss_number : Z;
    win_pct : xfloat;
    largest_loss : Z;
    profit_factor : xfloat;
    avg_profit : xfloat;
    avg_pl : xfloat;
    total_pl : xfloat }.

(** Lines 108 to 153 of [summary], on the frame that already holds its
    capital column: the table of nine statistics, or the first exception
    raised on the way.  A frame without rows is refused ([entries_mask]);
    when that frame has no columns either, pandas refuses it a few lines
    earlier, with a [KeyError]. *)
Definition statistics (initial : Z) (df : DataFrame) : result Summary :=
  returns <- daily_returns df ;;
  mask <- entries_mask df ;;
  let entries := loc df mask in
  let exits := loc df (map negb mask) in
  costs <- round_trips entries exits ;;
  let wins := fun c => c <? 0 in
  let losses := fun c => c >=? 0 in
  let profit_factor := xdivZ (count wins costs) (count losses costs) in
  let total_trades := Z.of_nat (List.length exits) in
  let win_number := count wins costs in
  let loss_number := total_trades - win_number in
  let win_pct := xdivZ win_number total_trades in
  largest_loss <- np_max costs ;;
  let avg_profit := xdivZ (sum (map Z.opp costs)) (Z.of_nat (List.length costs)) in
  let avg_pl := series_mean returns in
  caps <- mapM get_capital df ;;
  final <- iloc_last caps ;;
  let total_pl := xmul100 (xdivZ final initial) in
  Ok {| total_trades := total_trades;
        win_number := win_number;
        loss_number := loss_number;
        win_pct := win_pct;
        largest_loss := largest_loss;
        profit_factor := profit_factor;
        avg_profit := avg_profit;
        avg_pl := avg_pl;
        total_pl := total_pl |}.

(** ** [summary]

    [df = self.trade_log] is the log itself, not a copy: the capital column
    is written into [self.trade_log], and stays there whatever happens
    afterwards.  [summary] is the call up to line 153: the engine as it
    then is, and the table built there or the exception raised before.
    What the call does after line 153 is [summary_call], below. *)
Definition summary {Options : Type} (self : Backtest Options)
  : Backtest Options * result Summary :=
  match _strategy self with
  | None => (self, Raise AttributeError)
  | Some strat =>
      let df := write_capital (initial_capital strat) (trade_log self) in
      ({| _strategy := _strategy self;
          _data := _data self;
          inventory := inventory self;
          trade_log := df;
          stop_if_broke := stop_if_broke self;
          current_capital := current_capital self |},
       statistics (initial_capital strat) df)
  end.

(** ** The monthly table and the whole call

    Dates are written [yyyymmdd]; the order of the numbers is the order of
    the days. *)
Definition year_of (date : Z) : Z := date / 10000.

(** [groupby(daily_returns.index.year).apply(list)] on returns in date
    order: one list of returns per year. *)
Definition by_year (dated : list (Z * xfloat)) : list (Z * list xfloat) :=
  fold_right
    (fun row groups =>
       match groups with
       | (y, l) :: groups' =>
           if y =? year_of (fst row) then (y, snd row :: l) :: groups'
           else (year_of (fst row), [snd row]) :: groups
       | [] => [(year_of (fst row), [snd row])]
       end)
    [] dated.

(** Lines 155 to 163: the daily returns without the first, by year, laid
    out under twelve month columns.  [pd.DataFrame] refuses the data
    unless every year holds exactly twelve returns, and the heatmap
    refuses a table without rows; both raise [ValueError]. *)
Definition monthly_returns (df : DataFrame) : result (list (Z * list xfloat)) :=
  daily <- daily_capital df ;;
  let dated := tl (combine (map fst daily) (pct_change100 (map snd daily))) in
  let table := by_year dated in
  match table with
  | [] => Raise ValueError
  | _ :: _ =>
      if forallb (fun g => Nat.eqb (List.length (snd g)) 12) table then Ok table
      else Raise ValueError
  end.

(** The whole of [summary]: the table is returned once the monthly table
    has been built and drawn. *)
Definition summary_call {Options : Type} (self : Backtest Options)
  : Backtest Options * result Summary :=
  (fst (summary self),
   st <- snd (summary self) ;;
   _ <- monthly_returns (trade_log (fst (summary self))) ;;
   Ok st).

(** ** Worked scenarios

    Concrete strategies and data sources, with the date itself as the
    market snapshot. *)

Definition single_leg (contract order : string) (cost qty date : Z) : OrderRecord :=
  {| legs := [("leg_1",
               {| Leg.contract := contract;
                  Leg.underlying := "SPX";
                  Leg.expiration := 20200320;
                  Leg.type := "call";
                  Leg.strike := 3000;
                  Leg.cost := cost;
                  Leg.order := code_points order |})];
     totals := {| Totals.cost := cost;
                  Totals.qty := qty;
                  Totals.date := date;
                  Totals.capital := None |} |}.

Definition keep_all (inv : DataFrame) : list bool := map (fun _ => false) inv.
Definition close_all (inv : DataFrame) : list bool := map (fun _ => true) inv.

Definition dates (ds : list Z) : HistoricalOptionsData Z :=
  {| data_schema := "options";
     iter_dates := map (fun d => (d, d)) ds;
     iter_months := [] |}.

Definition configured (strat : Strategy Z) (ds : list Z) (gating : bool) : Backtest Z :=
  set_stop_if_broke (set_data (set_strategy Backtest_init strat) (dates ds)) gating.

(** Buys contract X for 100 on day 1 and sells it for 150 on day 3. *)
Definition round_trip_strategy : Strategy Z :=
  {| schema := "options";
     strategy_legs := ["leg_1"];
     initial_capital := 1000;
     filter_entries := fun _ _ date =>
       if date =? 1 then [single_leg "X" "BTO" 100 1 date] else [];
     filter_exits := fun _ inv date =>
       if date =? 3 then ([single_leg "X" "STC" (-150) 1 date], close_all inv, [-150])
       else ([], keep_all inv, []) |}.

(** Buys contract X for 100 every day, with a capital of 100, and never
    sells. *)
Definition buy_and_hold_strategy : Strategy Z :=
  {| schema := "options";
     strategy_legs := ["leg_1"];
     initial_capital := 100;
     filter_entries := fun _ _ date => [single_leg "X" "BTO" 100 1 date];
     filter_exits := fun _ inv _ => ([], keep_all inv, []) |}.

(** Buys X on day 1, sells it on day 2 and buys it again on day 3. *)
Definition reentry_strategy : Strategy Z :=
  {| schema := "options";
     strategy_legs := ["leg_1"];
     initial_capital := 1000;
     filter_entries := fun _ _ date =>
       if (date =? 1) || (date =? 3) then [single_leg "X" "BTO" 100 1 date] else [];
     filter_exits := fun _ inv date =>
       if date =? 2 then ([single_leg "X" "STC" (-150) 1 date], close_all inv, [-150])
       else ([], keep_all inv, []) |}.

(** Reports a closing cost of 5 for an exit row whose cost is 1. *)
Definition mispriced_exit_strategy : Strategy Z :=
  {| schema := "options";
     strategy_legs := ["leg_1"];
     initial_capital := 1000;
     filter_entries := fun _ _ _ => [];
     filter_exits := fun _ inv date =>
       ([single_leg "X" "STC" 1 1 date], keep_all inv, [5]) |}.

(** Holds a capital of 50 and proposes nothing. *)
Definition idle_strategy : Strategy Z :=
  {| schema := "options";
     strategy_legs := ["leg_1"];
     initial_capital := 50;
     filter_entries := fun _ _ _ => [];
     filter_exits := fun _ inv _ => ([], keep_all inv, []) |}.

(** Proposes three candidates, of total prices 10, 20 and 30. *)
Definition three_candidates : DataFrame :=
  [single_leg "A" "BTO" 10 1 1; single_leg "B" "BTO" 20 1 1; single_leg "C" "BTO" 30 1 1].

(** An engine holding position Y, with no capital left. *)
Definition holding_Y : Backtest Z :=
  {| _strategy := None;
     _data := None;
     inventory := [single_leg "Y" "BTO" 50 1 1];
     trade_log := [single_leg "Y" "BTO" 50 1 1];
     stop_if_broke := true;
     current_capital := 0 |}.

(** On day 2: sells Y for 150 and proposes to buy Z for 120. *)
Definition roll_strategy : Strategy Z :=
  {| schema := "options";
     strategy_legs := ["leg_1"];
     initial_capital := 50;
     filter_entries := fun _ _ date => [single_leg "Z" "BTO" 120 1 date];
     filter_exits := fun _ inv date =>
       ([single_leg "Y" "STC" (-150) 1 date], close_all inv, [-150]) |}.

(** The engine after a successful [run], or the engine itself. *)
Definition after_run {Options : Type} (self : Backtest Options) : Backtest Options :=
  match run self false with
  | Ok (self', _) => self'
  | Raise _ => self
  end.

(** ** The strategy's side of the exit contract

    The third component of an exit signal is, row by row, the total price
    of the exit rows. *)
Definition exits_priced {Options : Type} (strat : Strategy Options) : Prop :=
  forall options inv date,
    snd (filter_exits strat options inv date)
    = map total_price (fst (fst (filter_exits strat options inv date))).

(** The exit mask has one entry per inventory row. *)
Definition masks_fit {Options : Type} (strat : Strategy Options) : Prop :=
  forall options inv date,
    List.length (snd (fst (filter_exits strat options inv date))) = List.length inv.

(** [Σ cost × quantity] over the rows of a log, in log order. *)
Definition log_total (df : DataFrame) : Z := sum (map total_price df).

(** ** Views of the trade log used to state the properties of [summary] *)

(** The two parts [summary] splits a frame into: [(entries, exits)]. *)
Definition partition_log (df : DataFrame) : result (DataFrame * DataFrame) :=
  mask <- entries_mask df ;;
  Ok (loc df mask, loc df (map negb mask)).

(** The net costs of the matched round trips of a frame. *)
Definition matched_costs (df : DataFrame) : result (list Z) :=
  p <- partition_log df ;;
  round_trips (fst p) (snd p).

(** The date and the capital of every row, in row order. *)
Definition dated_capital (initial : Z) (df : DataFrame) : list (Z * Z) :=
  combine (map (fun r => Totals.date (totals r)) df) (capital_column initial df).

(** The capital of the last row dated [d], if there is one. *)
Definition last_on (d : Z) (rows : list (Z * Z)) : option Z :=
  fold_left (fun acc p => if fst p =? d then Some (snd p) else acc) rows None.

Fixpoint assoc (d : Z) (l : list (Z * Z)) : option Z :=
  match l with
  | [] => None
  | (d', c) :: l' => if d =? d' then Some c else assoc d l'
  end.

(** A row without its capital column. *)
Definition without_capital (r : OrderRecord) : list (string * Leg.t) * (Z * Z * Z) :=
  (legs r, (Totals.cost (totals r), Totals.qty (totals r), Totals.date (totals r))).

(** ** Further views, for the properties of the engine as a whole *)

(** The rows of a frame a boolean mask leaves unmarked. *)
Definition unmarked (df : DataFrame) (mask : list bool) : DataFrame :=
  loc df (map negb mask).

(** How many rows a mask marks. *)
Definition marked (mask : list bool) : nat := List.length (filter (fun b => b) mask).

(** The periods [run] iterates over. *)
Definition periods {Options : Type} (data : HistoricalOptionsData Options) (monthly : bool)
  : list (Z * Options) :=
  if monthly then iter_months data else iter_dates data.

(** The dates of the rows of a frame. *)
Definition row_dates (df : DataFrame) : list Z :=
  map (fun r => Totals.date (totals r)) df.

(** Sells Y for 150 whenever the ledger holds something; buys nothing. *)
Definition closing_strategy : Strategy Z :=
  {| schema := "options";
     strategy_legs := ["leg_1"];
     initial_capital := 0;
     filter_entries := fun _ _ _ => [];
     filter_exits := fun _ inv date =>
       match inv with
       | [] => ([], [], [])
       | _ :: _ => ([single_leg "Y" "STC" (-150) 1 date], close_all inv, [-150])
       end |}.

(** An engine holding another trade log. *)
Definition with_trade_log {Options : Type} (self : Backtest Options) (log : DataFrame)
  : Backtest Options :=
  {| _strategy := _strategy self;
     _data := _data self;
     inventory := inventory self;
     trade_log := log;
     stop_if_broke := stop_if_broke self;
     current_capital := current_capital self |}.

(** Is [contract] one of [l]? *)
Definition among (l : list string) (contract : string) : bool :=
  existsb (String.eqb contract) l.

(** ** A year of trading: thirteen dates of one year

    Buys one contract a day, A to L, for 10 each on the first twelve days
    of January 2020, and on the thirteenth sells every position held for
    15.  With [stray] set, the strategy also reports, that day, the sale
    for 10 of a contract Z that was never bought. *)
Definition day_contract (date : Z) : string :=
  String (ascii_of_nat (Z.to_nat (date - 20200100 + 64))) EmptyString.

Definition first_contract (r : OrderRecord) : string :=
  match legs r with
  | (_, leg) :: _ => Leg.contract leg
  | [] => ""
  end.

Definition year_strategy (stray : bool) : Strategy Z :=
  {| schema := "options";
     strategy_legs := ["leg_1"];
     initial_capital := 1000;
     filter_entries := fun _ _ date =>
       if date <=? 20200112 then [single_leg (day_contract date) "BTO" 10 1 date] else [];
     filter_exits := fun _ inv date =>
       if date =? 20200113 then
         (map (fun r => single_leg (first_contract r) "STC" (-15) 1 date) inv
              ++ (if stray then [single_leg "Z" "STC" 10 1 date] else []),
          close_all inv,
          map (fun _ => -15) inv ++ (if stray then [10] else []))
       else ([], keep_all inv, []) |}.

Definition january : list Z := map (fun i => 20200100 + Z.of_nat i) (seq 1 13).

(** ** The average of the daily returns, written out

    The change in per cent from one capital to the next, the changes of a
    series of capitals, and the arithmetic mean of a list of numbers. *)
Definition pct (prev cur : Z) : Q := ((inject_Z cur / inject_Z prev - 1) * 100)%Q.

Fixpoint changes (prev : Z) (caps : list Z) : list Q :=
  match caps with
  | [] => []
  | cur :: caps' => pct prev cur :: changes cur caps'
  end.

Definition Qsum (l : list Q) : Q := fold_left Qplus l 0%Q.

Definition Qmean (l : list Q) : Q := (Qsum l / inject_Z (Z.of_nat (List.length l)))%Q.
(** * Properties *)

(** ** Arithmetic of [sum] *)

Lemma fold_add_acc (l : list Z) (a : Z) :
  fold_left Z.add l a = a + fold_left Z.add l 0.
Proof.
  revert a; induction l as [|x l IH]; intros a; simpl.
  - lia.
  - rewrite IH, (IH x). lia.
Qed.

Lemma sum_cons (x : Z) (l : list Z) : sum (x :: l) = x + sum l.
Proof. unfold sum; simpl. rewrite fold_add_acc. lia. Qed.

Lemma sum_app (l1 l2 : list Z) : sum (l1 ++ l2) = sum l1 + sum l2.
Proof.
  induction l1 as [|x l1 IH]; simpl.
  - reflexivity.
  - rewrite !sum_cons, IH. lia.
Qed.

Lemma log_total_app (d1 d2 : DataFrame) :
  log_total (d1 ++ d2) = log_total d1 + log_total d2.
Proof. unfold log_total. rewrite map_app, sum_app. reflexivity. Qed.

Lemma log_total_one (r : OrderRecord) : log_total [r] = total_price r.
Proof. unfold log_total; simpl. rewrite sum_cons. unfold sum; simpl. lia. Qed.

(** ** The two execution steps *)

Section Steps.

Context {Options : Type}.
Implicit Types (self : Backtest Options) (strat : Strategy Options).

(** What [_execute_entry] does when the capital check lets the first candidate
    through, and when it does not. *)
Lemma _execute_entry_cons self (c : OrderRecord) (rest : DataFrame) :
  _execute_entry self (c :: rest) =
  if negb (stop_if_broke self) || (current_capital self >=? total_price c) then
    {| _strategy := _strategy self;
       _data := _data self;
       inventory := inventory self ++ [c];
       trade_log := trade_log self ++ [c];
       stop_if_broke := stop_if_broke self;
       current_capital := current_capital self - total_price c |}
  else self.
Proof. reflexivity. Qed.

Lemma _execute_entry_nil self : _execute_entry self [] = self.
Proof.
  unfold _execute_entry; simpl.
  destruct (negb (stop_if_broke self) || (current_capital self >=? 0)); [|reflexivity].
  destruct self; simpl.
  rewrite !app_nil_r, Z.sub_0_r. reflexivity.
Qed.

(** An entry step moves capital by exactly the rows it logs, and leaves
    the [stop_if_broke] flag alone. *)
Lemma _execute_entry_log self (signals : DataFrame) :
  exists added,
    trade_log (_execute_entry self signals) = trade_log self ++ added
    /\ inventory (_execute_entry self signals) = inventory self ++ added
    /\ current_capital (_execute_entry self signals)
       = current_capital self - log_total added
    /\ stop_if_broke (_execute_entry self signals) = stop_if_broke self.
Proof.
  destruct signals as [|c rest].
  - exists []. rewrite _execute_entry_nil, !app_nil_r.
    unfold log_total, sum; simpl. repeat split; lia.
  - rewrite _execute_entry_cons.
    destruct (negb (stop_if_broke self) || (current_capital self >=? total_price c)).
    + exists [c]. simpl. rewrite log_total_one. repeat split.
    + exists []. rewrite !app_nil_r. unfold log_total, sum; simpl. repeat split; lia.
Qed.

Lemma _execute_exit_ok self (exits : DataFrame) (mask : list bool) (total_costs : list Z)
      self1 :
  _execute_exit self (exits, mask, total_costs) = Ok self1 ->
  trade_log self1 = trade_log self ++ exits
  /\ current_capital self1 = current_capital self - sum total_costs
  /\ stop_if_broke self1 = stop_if_broke self
  /\ drop_masked (inventory self) mask = Ok (inventory self1).
Proof.
  unfold _execute_exit, bind.
  destruct (drop_masked (inventory self) mask) as [inv|e]; [|discriminate].
  intros H; injection H as <-. simpl. repeat split.
Qed.

(** A mask that fits the inventory is never refused. *)
Lemma drop_marked_fits (inv : DataFrame) (mask : list bool) :
  List.length mask = List.length inv -> exists inv', drop_marked inv mask = Ok inv'.
Proof.
  revert mask; induction inv as [|r inv IH]; intros [|b mask] Hlen;
    simpl in Hlen; try discriminate.
  - exists []. reflexivity.
  - injection Hlen as Hlen. destruct (IH mask Hlen) as [inv' Hinv'].
    simpl. rewrite Hinv'. simpl. eexists; reflexivity.
Qed.

Lemma drop_masked_fits (inv : DataFrame) (mask : list bool) :
  List.length mask = List.length inv -> exists inv', drop_masked inv mask = Ok inv'.
Proof.
  intros Hlen. destruct mask as [|b mask]; [now exists []|].
  exact (drop_marked_fits inv (b :: mask) Hlen).
Qed.

(** One period: the log grows by the exits and then by the entry, and the
    capital moves by the reported exit costs and the entry's price. *)
Lemma period_log strat self (p : Z * Options) self' :
  period strat self p = Ok self' ->
  exists added,
    trade_log self' = trade_log self
                      ++ fst (fst (filter_exits strat (snd p) (inventory self) (fst p)))
                      ++ added
    /\ current_capital self'
       = current_capital self
         - sum (snd (filter_exits strat (snd p) (inventory self) (fst p)))
         - log_total added
    /\ stop_if_broke self' = stop_if_broke self.
Proof.
  destruct p as [date options]; unfold period; simpl.
  destruct (filter_exits strat options (inventory self) date) as [[exits mask] tc] eqn:Hx.
  unfold bind.
  destruct (_execute_exit self (exits, mask, tc)) as [self1|e] eqn:Hexit; [|discriminate].
  intros H; injection H as <-.
  apply _execute_exit_ok in Hexit as (Hlog & Hcap & Hflag & _).
  destruct (_execute_entry_log self1 (filter_entries strat options (inventory self) date))
    as (added & Hl & _ & Hc & Hf).
  exists added. simpl. rewrite Hl, Hc, Hlog, Hcap, Hf, Hflag, app_assoc.
  repeat split.
Qed.

(** The loop only ever extends the log, and keeps the books balanced as
    long as the strategy prices its exits. *)
Lemma run_loop_log strat (it : list (Z * Options)) self self' :
  run_loop strat self it = Ok self' ->
  exists added, trade_log self' = trade_log self ++ added.
Proof.
  revert self; induction it as [|p it IH]; intros self; simpl.
  - intros H; injection H as <-. exists []. now rewrite app_nil_r.
  - unfold bind. destruct (period strat self p) as [self1|e] eqn:Hp; [|discriminate].
    intros Hrun. apply IH in Hrun as [added2 H2].
    apply period_log in Hp as (added1 & H1 & _).
    rewrite H2, H1. rewrite <- !app_assoc. eexists; reflexivity.
Qed.

Lemma run_loop_conserves strat (it : list (Z * Options)) self self' :
  exits_priced strat ->
  run_loop strat self it = Ok self' ->
  current_capital self' + log_total (trade_log self')
  = current_capital self + log_total (trade_log self).
Proof.
  intros Hpriced. revert self; induction it as [|p it IH]; intros self; simpl.
  - intros H; injection H as <-. reflexivity.
  - unfold bind. destruct (period strat self p) as [self1|e] eqn:Hp; [|discriminate].
    intros Hrun. rewrite (IH _ Hrun).
    apply period_log in Hp as (added & Hl & Hc & _).
    rewrite Hl, Hc, !log_total_app, Hpriced. unfold log_total. lia.
Qed.

(** With fitting masks the loop runs to its end. *)
Lemma run_loop_returns strat (it : list (Z * Options)) self :
  masks_fit strat -> exists self', run_loop strat self it = Ok self'.
Proof.
  intros Hfit. revert self; induction it as [|[date options] it IH]; intros self; simpl.
  - eexists; reflexivity.
  - unfold period.
    destruct (filter_exits strat options (inventory self) date) as [[exits mask] tc] eqn:Hx.
    destruct (drop_masked_fits (inventory self) mask) as [inv' Hinv'].
    { specialize (Hfit options (inventory self) date). now rewrite Hx in Hfit. }
    unfold _execute_exit. rewrite Hinv'. simpl. apply IH.
Qed.

(** [run] on a configured engine whose strategy's masks fit returns. *)
Lemma run_returns self strat data (monthly : bool) :
  _strategy self = Some strat ->
  _data self = Some data ->
  data_schema data = schema strat ->
  masks_fit strat ->
  exists self', run self monthly = Ok (self', trade_log self').
Proof.
  intros Hs Hd Hschema Hfit. unfold run. rewrite Hs, Hd, Hschema, String.eqb_refl.
  destruct (run_loop_returns strat (if monthly then iter_months data else iter_dates data)
                             (run_reset self) Hfit) as [self' H'].
  rewrite H'. simpl. eexists; reflexivity.
Qed.

Lemma run_inv self (monthly : bool) self' (log : DataFrame) :
  run self monthly = Ok (self', log) ->
  exists strat data,
    _strategy self = Some strat
    /\ _data self = Some data
    /\ data_schema data = schema strat
    /\ run_loop strat (run_reset self)
                (if monthly then iter_months data else iter_dates data) = Ok self'
    /\ log = trade_log self'.
Proof.
  unfold run.
  destruct (_data self) as [data|]; [|discriminate].
  destruct (_strategy self) as [strat|]; [|discriminate].
  destruct (String.eqb (data_schema data) (schema strat)) eqn:Hschema; [|discriminate].
  unfold bind.
  destruct (run_loop strat (run_reset self) _) as [self1|e] eqn:Hloop; [|discriminate].
  intros H; injection H as <- <-.
  exists strat, data. apply String.eqb_eq in Hschema. repeat split; assumption.
Qed.

End Steps.

(** ** Capital accounting *)

(** C1 (capital conservation), amended.  For every run that returns, whatever the
    data and the granularity, of an engine whose strategy prices its exits
    (the costs it reports for the exit rows are their cost times quantity):
    the value returned is the trade log, the capital after the run is the
    capital the run started with minus the sum of cost times quantity over
    the rows of the trade log, in log order; and an engine that enters the
    run with the capital its strategy setter gave it, the strategy's
    initial capital, ends with the initial capital minus that sum. *)
Theorem capital_conservation {Options : Type}
        (self self' : Backtest Options) (monthly : bool) (log : DataFrame)
        (strat : Strategy Options) :
  _strategy self = Some strat ->
  exits_priced strat ->
  run self monthly = Ok (self', log) ->
  log = trade_log self'
  /\ current_capital self' = current_capital self - sum (map total_price log)
  /\ (current_capital self = initial_capital strat ->
      current_capital self' = initial_capital strat - sum (map total_price log)).
Proof.
  intros Hstrat Hpriced Hrun.
  apply run_inv in Hrun as (strat' & data & Hs & _ & _ & Hloop & ->).
  rewrite Hstrat in Hs; injection Hs as <-.
  apply (run_loop_conserves strat _ _ _ Hpriced) in Hloop.
  unfold log_total in Hloop; simpl in Hloop.
  change (sum []) with 0 in Hloop.
  repeat split; try intros <-; lia.
Qed.

Lemma round_trip_strategy_priced : exits_priced round_trip_strategy.
Proof.
  intros options inv date; simpl. destruct (date =? 3); reflexivity.
Qed.

Lemma capital_conservation_witness :
  run (configured round_trip_strategy [1; 2; 3] false) false
  = Ok (after_run (configured round_trip_strategy [1; 2; 3] false),
        [single_leg "X" "BTO" 100 1 1; single_leg "X" "STC" (-150) 1 3])
  /\ current_capital (after_run (configured round_trip_strategy [1; 2; 3] false))
     = 1000 - (100 * 1 + -150 * 1).
Proof.
  split; [reflexivity|].
  exact (proj2 (proj2 (capital_conservation
                         (configured round_trip_strategy [1; 2; 3] false)
                         (after_run (configured round_trip_strategy [1; 2; 3] false))
                         false
                         [single_leg "X" "BTO" 100 1 1; single_leg "X" "STC" (-150) 1 3]
                         round_trip_strategy
                         eq_refl round_trip_strategy_priced eq_refl))
               eq_refl).
Defined.

(** C1 does not hold of exits whose reported cost is not their rows' own:
    the strategy below logs, on the one day of the run, an exit row of
    cost 1 and quantity 1 and reports a closing cost of 5.  The run starts
    from the initial capital of 1000 and ends with 995, while the initial
    capital minus the total price of the log is 999. *)
Lemma capital_follows_the_reported_exit_cost :
  run (configured mispriced_exit_strategy [1] true) false
  = Ok (after_run (configured mispriced_exit_strategy [1] true),
        [single_leg "X" "STC" 1 1 1])
  /\ current_capital (configured mispriced_exit_strategy [1] true)
     = initial_capital mispriced_exit_strategy
  /\ current_capital (after_run (configured mispriced_exit_strategy [1] true)) = 995
  /\ current_capital (after_run (configured mispriced_exit_strategy [1] true))
     <> initial_capital mispriced_exit_strategy
        - sum (map total_price
                   (trade_log (after_run (configured mispriced_exit_strategy [1] true)))).
Proof. repeat split. discriminate. Qed.

(** Each executed order moves the capital by its own cost times quantity:
    an entry by the candidate's, an exit batch by the costs reported. *)
Lemma capital_moves_per_order {Options : Type} (self : Backtest Options)
      (c : OrderRecord) (rest exits : DataFrame) (mask : list bool) (tc : list Z) self1 :
  (trade_log (_execute_entry self (c :: rest)) = trade_log self ++ [c] ->
   current_capital (_execute_entry self (c :: rest)) = current_capital self - total_price c)
  /\ (_execute_exit self (exits, mask, tc) = Ok self1 ->
      current_capital self1 = current_capital self - sum tc).
Proof.
  split.
  - rewrite _execute_entry_cons.
    destruct (negb (stop_if_broke self) || (current_capital self >=? total_price c)).
    + reflexivity.
    + intros H. exfalso.
      apply (f_equal (@List.length _)) in H. rewrite length_app in H. simpl in H. lia.
  - intros H. now apply _execute_exit_ok in H.
Qed.

(** ** Entry policy *)

(** C4 (capital gating).  With [stop_if_broke] on, every row an entry step
    adds to the trade log and to the ledger has a total price within the
    capital held at that point, and a first candidate whose total price
    exceeds that capital leaves the engine exactly as it was; with
    [stop_if_broke] off the first candidate is always executed: appended
    to both, and paid for. *)
Theorem capital_gating {Options : Type} (self : Backtest Options)
        (c : OrderRecord) (rest : DataFrame) :
  (stop_if_broke self = true ->
   (exists added,
       trade_log (_execute_entry self (c :: rest)) = trade_log self ++ added
       /\ inventory (_execute_entry self (c :: rest)) = inventory self ++ added
       /\ forall r, In r added -> total_price r <= current_capital self)
   /\ (current_capital self < total_price c -> _execute_entry self (c :: rest) = self))
  /\ (stop_if_broke self = false ->
      trade_log (_execute_entry self (c :: rest)) = trade_log self ++ [c]
      /\ inventory (_execute_entry self (c :: rest)) = inventory self ++ [c]
      /\ current_capital (_execute_entry self (c :: rest))
         = current_capital self - total_price c).
Proof.
  rewrite _execute_entry_cons. split; intros Hflag; rewrite Hflag; simpl.
  - destruct (current_capital self >=? total_price c) eqn:Hcmp.
    + apply Z.geb_le in Hcmp. split.
      * exists [c]. simpl. repeat split. intros r [<-|[]]. exact Hcmp.
      * lia.
    + split.
      * exists []. rewrite !app_nil_r. repeat split. intros r [].
      * reflexivity.
  - repeat split.
Qed.

Lemma capital_gating_witness :
  _execute_entry (configured idle_strategy [] true) [single_leg "X" "BTO" 100 1 1]
  = configured idle_strategy [] true
  /\ trade_log (_execute_entry (configured idle_strategy [] false)
                               [single_leg "X" "BTO" 100 1 1])
     = [single_leg "X" "BTO" 100 1 1].
Proof.
  split.
  - apply (proj2 (proj1 (capital_gating (configured idle_strategy [] true)
                                        (single_leg "X" "BTO" 100 1 1) [])
                        eq_refl)).
    vm_compute. reflexivity.
  - apply (proj1 (proj2 (capital_gating (configured idle_strategy [] false)
                                        (single_leg "X" "BTO" 100 1 1) [])
                        eq_refl)).
Defined.

(** C5 (single entry per period).  Without candidates an entry step is a
    no-op.  With candidates [c :: rest] the step either changes nothing or
    appends exactly [c], the first one, to the trade log and to the ledger
    and pays for it; the candidates after the first have no influence. *)
Theorem single_entry_per_period {Options : Type} (self : Backtest Options)
        (c : OrderRecord) (rest : DataFrame) :
  _execute_entry self [] = self
  /\ (_execute_entry self (c :: rest) = self
      \/ (trade_log (_execute_entry self (c :: rest)) = trade_log self ++ [c]
          /\ inventory (_execute_entry self (c :: rest)) = inventory self ++ [c]
          /\ current_capital (_execute_entry self (c :: rest))
             = current_capital self - total_price c))
  /\ _execute_entry self (c :: rest) = _execute_entry self [c]
  /\ _process_entry_signals (c :: rest) = ([c], total_price c).
Proof.
  split; [apply _execute_entry_nil|]. split; [|split; reflexivity].
  rewrite _execute_entry_cons.
  destruct (negb (stop_if_broke self) || (current_capital self >=? total_price c)).
  - right. repeat split.
  - left. reflexivity.
Qed.

(** Three candidates of prices 10, 20 and 30, and capital for all: only the
    first one is executed. *)
Example three_candidates_one_entry :
  trade_log (_execute_entry (configured round_trip_strategy [] true) three_candidates)
  = [single_leg "A" "BTO" 10 1 1]
  /\ inventory (_execute_entry (configured round_trip_strategy [] true) three_candidates)
     = [single_leg "A" "BTO" 10 1 1]
  /\ current_capital (_execute_entry (configured round_trip_strategy [] true) three_candidates)
     = 990.
Proof. repeat split. Qed.

(** C6 (exits before entries).  In a period that completes, the exits are
    executed on the engine as the period found it, the entry step runs on
    the engine the exits left, and so, with [stop_if_broke] on, the first
    candidate is executed exactly when its total price is within the
    capital left after the exits' costs were taken: the log then ends with
    the exit rows followed by the candidate, and otherwise with the exit
    rows alone. *)
Theorem exits_before_entries {Options : Type} (strat : Strategy Options)
        (self self' : Backtest Options) (date : Z) (options : Options)
        (exits : DataFrame) (mask : list bool) (total_costs : list Z) :
  filter_exits strat options (inventory self) date = (exits, mask, total_costs) ->
  period strat self (date, options) = Ok self' ->
  exists self1,
    _execute_exit self (exits, mask, total_costs) = Ok self1
    /\ current_capital self1 = current_capital self - sum total_costs
    /\ self' = _execute_entry self1 (filter_entries strat options (inventory self) date)
    /\ (stop_if_broke self = true ->
        forall c rest,
          filter_entries strat options (inventory self) date = c :: rest ->
          (total_price c <= current_capital self - sum total_costs ->
           trade_log self' = trade_log self ++ exits ++ [c])
          /\ (current_capital self - sum total_costs < total_price c ->
              trade_log self' = trade_log self ++ exits)).
Proof.
  intros Hx. unfold period. rewrite Hx. unfold bind.
  destruct (_execute_exit self (exits, mask, total_costs)) as [self1|e] eqn:Hexit;
    [|discriminate].
  intros H; injection H as <-.
  pose proof (_execute_exit_ok _ _ _ _ _ Hexit) as (Hlog & Hcap & Hflag & _).
  exists self1. repeat split; try assumption.
  - intros Hle. rewrite H0, _execute_entry_cons, Hflag, H, Hcap. simpl.
    apply Z.geb_le in Hle. rewrite Hle. simpl. rewrite Hlog, app_assoc. reflexivity.
  - intros Hlt. rewrite H0, _execute_entry_cons, Hflag, H, Hcap. simpl.
    destruct (current_capital self - sum total_costs >=? total_price c) eqn:Hcmp.
    + apply Z.geb_le in Hcmp. lia.
    + exact Hlog.
Qed.

Lemma exits_before_entries_witness :
  current_capital holding_Y < total_price (single_leg "Z" "BTO" 120 1 2)
  /\ exists self',
      period roll_strategy holding_Y (2, 2) = Ok self'
      /\ trade_log self'
         = trade_log holding_Y
           ++ [single_leg "Y" "STC" (-150) 1 2] ++ [single_leg "Z" "BTO" 120 1 2].
Proof.
  split; [reflexivity|].
  destruct (exits_before_entries roll_strategy holding_Y
              (_execute_entry
                 {| _strategy := None; _data := None; inventory := [];
                    trade_log := [single_leg "Y" "BTO" 50 1 1; single_leg "Y" "STC" (-150) 1 2];
                    stop_if_broke := true; current_capital := 150 |}
                 [single_leg "Z" "BTO" 120 1 2])
              2 2 [single_leg "Y" "STC" (-150) 1 2] [true] [-150] eq_refl eq_refl)
    as (self1 & _ & _ & _ & Hcheck).
  eexists. split; [reflexivity|].
  apply (proj1 (Hcheck eq_refl _ _ eq_refl)). vm_compute. discriminate.
Defined.

(** ** Lifecycle of a run *)

(** What [run] resets and what it does not: the loop starts from an empty
    ledger and an empty trade log, and from the capital the engine holds
    when [run] is called. *)
Lemma run_start_state {Options : Type} (self self' : Backtest Options)
      (monthly : bool) (log : DataFrame) :
  run self monthly = Ok (self', log) ->
  exists strat data,
    _strategy self = Some strat
    /\ run_loop strat (run_reset self)
                (if monthly then iter_months data else iter_dates data) = Ok self'
    /\ inventory (run_reset self) = []
    /\ trade_log (run_reset self) = []
    /\ current_capital (run_reset self) = current_capital self.
Proof.
  intros Hrun. apply run_inv in Hrun as (strat & data & Hs & _ & _ & Hloop & _).
  exists strat, data. repeat split; assumption.
Qed.

(** C9 (per-run lifecycle), at the failing input: a strategy with an
    initial capital of 100 that buys for 100, run twice on one day of data
    with [stop_if_broke] on.  The first run starts with 100, buys, and leaves 0.
    The second run starts with an empty ledger and an empty log, but with
    the 0 the first run left, not with the strategy's 100: the same
    candidate is now refused and the second log is empty. *)
Theorem second_run_starts_from_spent_capital :
  initial_capital buy_and_hold_strategy = 100
  /\ current_capital (configured buy_and_hold_strategy [1] true) = 100
  /\ run (configured buy_and_hold_strategy [1] true) false
     = Ok (after_run (configured buy_and_hold_strategy [1] true),
           [single_leg "X" "BTO" 100 1 1])
  /\ _strategy (after_run (configured buy_and_hold_strategy [1] true))
     = Some buy_and_hold_strategy
  /\ inventory (run_reset (after_run (configured buy_and_hold_strategy [1] true))) = []
  /\ trade_log (run_reset (after_run (configured buy_and_hold_strategy [1] true))) = []
  /\ current_capital (run_reset (after_run (configured buy_and_hold_strategy [1] true))) = 0
  /\ run (after_run (configured buy_and_hold_strategy [1] true)) false
     = Ok (after_run (after_run (configured buy_and_hold_strategy [1] true)), []).
Proof. repeat split. Qed.

(** ** Inversion of [summary] *)

Lemma statistics_inv (initial : Z) (df : DataFrame) (st : Summary) :
  statistics initial df = Ok st ->
  exists returns mask costs largest caps final,
    daily_returns df = Ok returns
    /\ entries_mask df = Ok mask
    /\ round_trips (loc df mask) (loc df (map negb mask)) = Ok costs
    /\ np_max costs = Ok largest
    /\ mapM get_capital df = Ok caps
    /\ iloc_last caps = Ok final
    /\ st = {| total_trades := Z.of_nat (List.length (loc df (map negb mask)));
               win_number := count (fun c => c <? 0) costs;
               loss_number := Z.of_nat (List.length (loc df (map negb mask)))
                              - count (fun c => c <? 0) costs;
               win_pct := xdivZ (count (fun c => c <? 0) costs)
                                (Z.of_nat (List.length (loc df (map negb mask))));
               largest_loss := largest;
               profit_factor := xdivZ (count (fun c => c <? 0) costs)
                                      (count (fun c => c >=? 0) costs);
               avg_profit := xdivZ (sum (map Z.opp costs)) (Z.of_nat (List.length costs));
               avg_pl := series_mean returns;
               total_pl := xmul100 (xdivZ final initial) |}.
Proof.
  unfold statistics, bind.
  destruct (daily_returns df) as [returns|] eqn:Hr; [|discriminate].
  destruct (entries_mask df) as [mask|] eqn:Hm; [|discriminate].
  destruct (round_trips _ _) as [costs|] eqn:Hc; [|discriminate].
  destruct (np_max costs) as [largest|] eqn:Hl; [|discriminate].
  destruct (mapM get_capital df) as [caps|] eqn:Hk; [|discriminate].
  destruct (iloc_last caps) as [final|] eqn:Hf; [|discriminate].
  intros H; injection H as <-.
  exists returns, mask, costs, largest, caps, final. repeat split; assumption.
Qed.

Lemma summary_inv {Options : Type} (self : Backtest Options) (st : Summary) :
  snd (summary self) = Ok st ->
  exists strat,
    _strategy self = Some strat
    /\ trade_log (fst (summary self)) = write_capital (initial_capital strat) (trade_log self)
    /\ statistics (initial_capital strat) (trade_log (fst (summary self))) = Ok st.
Proof.
  unfold summary. destruct (_strategy self) as [strat|]; simpl; [|discriminate].
  intros H. exists strat. repeat split. exact H.
Qed.

(** ** Degenerate statistics *)

(** A frame without a matched round trip makes [summary] raise: [np.max]
    refuses the empty array of net costs. *)
Lemma statistics_without_round_trip (initial : Z) (df : DataFrame)
      (returns : list xfloat) (mask : list bool) :
  daily_returns df = Ok returns ->
  entries_mask df = Ok mask ->
  round_trips (loc df mask) (loc df (map negb mask)) = Ok [] ->
  statistics initial df = Raise ValueError.
Proof.
  intros Hr Hm Hc. unfold statistics. rewrite Hr; simpl. rewrite Hm; simpl.
  rewrite Hc; simpl. reflexivity.
Qed.

(** C7 (degenerate statistics), at the failing input: the log of a run
    that opened one position and never closed it has no exit and no
    matched round trip, and [summary] raises [ValueError] on it.  A log
    with a matched round trip and no loss does get its table, with an
    infinite profit factor. *)
Theorem summary_raises_without_round_trip :
  trade_log (after_run (configured buy_and_hold_strategy [1] true))
  = [single_leg "X" "BTO" 100 1 1]
  /\ matched_costs (trade_log (fst (summary (after_run (configured buy_and_hold_strategy [1] true)))))
     = Ok []
  /\ snd (summary (after_run (configured buy_and_hold_strategy [1] true)))
     = Raise ValueError
  /\ matched_costs
       (trade_log (fst (summary (after_run (configured round_trip_strategy [1; 2; 3] false)))))
     = Ok [-50]
  /\ exists st,
      snd (summary (after_run (configured round_trip_strategy [1; 2; 3] false))) = Ok st
      /\ loss_number st = 0
      /\ profit_factor st = PInf.
Proof.
  repeat split. eexists. repeat split.
Qed.

(** ** The capital column *)

Lemma cumsum_from_length (l : list Z) (acc : Z) :
  List.length (cumsum_from acc l) = List.length l.
Proof.
  revert acc; induction l as [|x l IH]; intros acc; simpl; [reflexivity|].
  now rewrite IH.
Qed.

Lemma capital_column_length (initial : Z) (df : DataFrame) :
  List.length (capital_column initial df) = List.length df.
Proof.
  unfold capital_column, cumsum. now rewrite length_map, cumsum_from_length, length_map.
Qed.

Lemma cumsum_from_nth (l : list Z) (acc : Z) (i : nat) :
  nth_error (cumsum_from acc l) i
  = option_map (fun _ => acc + sum (firstn (S i) l)) (nth_error l i).
Proof.
  revert acc i; induction l as [|x l IH]; intros acc i.
  - destruct i; reflexivity.
  - destruct i as [|i]; rewrite firstn_cons; cbn [cumsum_from nth_error option_map].
    + rewrite firstn_O, sum_cons. change (sum []) with 0. apply f_equal. lia.
    + rewrite IH. destruct (nth_error l i); cbn [option_map]; [|reflexivity].
      rewrite (sum_cons x). apply f_equal. lia.
Qed.

Lemma sum_negated_prices (df : DataFrame) :
  sum (map (fun r => - Totals.cost (totals r) * Totals.qty (totals r)) df) = - log_total df.
Proof.
  unfold log_total. induction df as [|r df IH]; simpl; [reflexivity|].
  rewrite !sum_cons, IH. unfold total_price. lia.
Qed.

(** Row [i] of the capital column is the initial capital minus the total
    price of the rows up to and including row [i]. *)
Lemma capital_column_nth (initial : Z) (df : DataFrame) (i : nat) :
  nth_error (capital_column initial df) i
  = option_map (fun _ => initial - log_total (firstn (S i) df)) (nth_error df i).
Proof.
  unfold capital_column, cumsum.
  rewrite nth_error_map, cumsum_from_nth, nth_error_map.
  destruct (nth_error df i); cbn [option_map]; [|reflexivity].
  apply f_equal. rewrite firstn_map, sum_negated_prices. lia.
Qed.

Lemma nth_error_zip {A B C : Type} (f : A * B -> C) (l1 : list A) (l2 : list B) (i : nat) :
  nth_error (map f (combine l1 l2)) i
  = match nth_error l1 i, nth_error l2 i with
    | Some a, Some b => Some (f (a, b))
    | _, _ => None
    end.
Proof.
  revert l2 i; induction l1 as [|a l1 IH]; intros [|b l2] [|i]; simpl; try reflexivity.
  - destruct (nth_error l1 i); reflexivity.
  - apply IH.
Qed.

Lemma write_capital_nth (initial : Z) (df : DataFrame) (i : nat) :
  nth_error (write_capital initial df) i
  = option_map (fun r => set_capital r (initial - log_total (firstn (S i) df)))
               (nth_error df i).
Proof.
  unfold write_capital. rewrite nth_error_zip, capital_column_nth.
  destruct (nth_error df i); reflexivity.
Qed.

Lemma zip_preserves {A : Type} (g : OrderRecord -> A) (df : DataFrame) (caps : list Z) :
  (forall r c, g (set_capital r c) = g r) ->
  List.length caps = List.length df ->
  map g (map (fun p => set_capital (fst p) (snd p)) (combine df caps)) = map g df.
Proof.
  intros Hg. revert caps; induction df as [|r df IH]; intros [|c caps] Hlen;
    simpl in *; try discriminate; [reflexivity|].
  injection Hlen as Hlen. now rewrite Hg, IH.
Qed.

Lemma write_capital_without (initial : Z) (df : DataFrame) :
  map without_capital (write_capital initial df) = map without_capital df.
Proof.
  apply zip_preserves; [reflexivity|apply capital_column_length].
Qed.

Lemma write_capital_length (initial : Z) (df : DataFrame) :
  List.length (write_capital initial df) = List.length df.
Proof.
  rewrite <- (length_map without_capital), write_capital_without. apply length_map.
Qed.

(** ** The trade log over time *)

(** C3 does not hold of [summary]: after the round trip of the first scenario,
    [summary] leaves a trade log that is not the log of the run with rows
    appended; its first row has changed. *)
Lemma summary_rewrites_the_log :
  trade_log (after_run (configured round_trip_strategy [1; 2; 3] false))
  = [single_leg "X" "BTO" 100 1 1; single_leg "X" "STC" (-150) 1 3]
  /\ nth_error (trade_log (fst (summary (after_run
                 (configured round_trip_strategy [1; 2; 3] false))))) 0
     = Some (set_capital (single_leg "X" "BTO" 100 1 1) 900)
  /\ ~ exists added,
        trade_log (fst (summary (after_run (configured round_trip_strategy [1; 2; 3] false))))
        = trade_log (after_run (configured round_trip_strategy [1; 2; 3] false)) ++ added.
Proof.
  repeat split. intros [added H]. vm_compute in H. discriminate H.
Qed.

(** C3, amended.  Every step of a run only appends to the trade log: an
    entry step, an exit step and any stretch of the loop leave a log that
    is the earlier log followed by new rows.  [summary], called afterwards,
    rewrites the log in place: it keeps the number of rows, their order
    and every field of every row except the capital column, which it sets
    in row [i] to the initial capital minus the total price of rows [0]
    to [i]. *)
Theorem trade_log_appended_then_annotated {Options : Type}
        (strat : Strategy Options) (self : Backtest Options) :
  (forall signals,
      exists added, trade_log (_execute_entry self signals) = trade_log self ++ added)
  /\ (forall signals self',
         _execute_exit self signals = Ok self' ->
         trade_log self' = trade_log self ++ fst (fst signals))
  /\ (forall it self',
         run_loop strat self it = Ok self' ->
         exists added, trade_log self' = trade_log self ++ added)
  /\ (_strategy self = Some strat ->
      trade_log (fst (summary self)) = write_capital (initial_capital strat) (trade_log self)
      /\ List.length (trade_log (fst (summary self))) = List.length (trade_log self)
      /\ map without_capital (trade_log (fst (summary self)))
         = map without_capital (trade_log self)
      /\ forall i r,
          nth_error (trade_log self) i = Some r ->
          nth_error (trade_log (fst (summary self))) i
          = Some (set_capital r (initial_capital strat
                                 - log_total (firstn (S i) (trade_log self))))).
Proof.
  split; [|split; [|split]].
  - intros signals. destruct (_execute_entry_log self signals) as (added & H & _).
    exists added. exact H.
  - intros [[exits mask] tc] self' H. apply _execute_exit_ok in H as (H & _). exact H.
  - intros it self'. apply run_loop_log.
  - intros Hs. unfold summary. rewrite Hs. simpl.
    split; [reflexivity|]. split; [apply write_capital_length|].
    split; [apply write_capital_without|].
    intros i r Hr. rewrite write_capital_nth, Hr. reflexivity.
Qed.

Lemma trade_log_appended_then_annotated_witness :
  trade_log (after_run (configured round_trip_strategy [1; 2; 3] false))
  = [] ++ [single_leg "X" "BTO" 100 1 1; single_leg "X" "STC" (-150) 1 3]
  /\ trade_log (fst (summary (after_run (configured round_trip_strategy [1; 2; 3] false))))
     = [set_capital (single_leg "X" "BTO" 100 1 1) 900;
        set_capital (single_leg "X" "STC" (-150) 1 3) 1050].
Proof.
  split.
  - destruct (proj1 (proj2 (proj2 (trade_log_appended_then_annotated
                                     round_trip_strategy
                                     (run_reset (configured round_trip_strategy [1; 2; 3] false)))))
                    (iter_dates (dates [1; 2; 3]))
                    (after_run (configured round_trip_strategy [1; 2; 3] false))
                    eq_refl) as [added H].
    reflexivity.
  - rewrite (proj1 (proj2 (proj2 (proj2 (trade_log_appended_then_annotated
                                           round_trip_strategy
                                           (after_run (configured round_trip_strategy
                                                                  [1; 2; 3] false)))))
                          eq_refl)).
    reflexivity.
Defined.

(** ** Wins and losses *)

Lemma count_complement (costs : list Z) :
  count (fun c => c <? 0) costs + count (fun c => c >=? 0) costs
  = Z.of_nat (List.length costs).
Proof.
  unfold count. induction costs as [|c costs IH]; simpl; [reflexivity|].
  rewrite Z.geb_leb.
  destruct (Z.ltb_spec c 0), (Z.leb_spec 0 c); simpl List.length; lia.
Qed.

Lemma mapM_length {A B : Type} (f : A -> result B) (l : list A) (l' : list B) :
  mapM f l = Ok l' -> List.length l' = List.length l.
Proof.
  revert l'; induction l as [|a l IH]; intros l'; simpl.
  - intros H; injection H as <-. reflexivity.
  - unfold bind. destruct (f a); [|discriminate].
    destruct (mapM f l) as [bs|]; [|discriminate].
    intros H; injection H as <-. simpl. now rewrite (IH bs).
Qed.

Lemma map_fst_zip {A B : Type} (l1 : list A) (l2 : list B) :
  List.length l1 = List.length l2 -> map fst (combine l1 l2) = l1.
Proof.
  revert l2; induction l1 as [|a l1 IH]; intros [|b l2] Hlen; simpl in *;
    try discriminate; [reflexivity|].
  injection Hlen as Hlen. now rewrite IH.
Qed.

Lemma first_total_found (keyed : list (string * OrderRecord)) (contract : string) :
  In contract (map fst keyed) <-> first_total keyed contract <> None.
Proof.
  unfold first_total. induction keyed as [|[k r] keyed IH]; simpl.
  - split; [intros []|intros H; now apply H].
  - destruct (String.eqb k contract) eqn:Hk.
    + apply String.eqb_eq in Hk. split; [discriminate|intros _; now left].
    + apply String.eqb_neq in Hk. rewrite <- IH. split; [intros [H|H]|intros H].
      * contradiction.
      * exact H.
      * now right.
Qed.

(** Is [contract] among the keys? *)
Lemma existsb_eqb_In (contract : string) (l : list string) :
  existsb (String.eqb contract) l = true <-> In contract l.
Proof.
  rewrite existsb_exists. split.
  - intros (x & Hin & Heq). apply String.eqb_eq in Heq. now subst.
  - intros Hin. exists contract. split; [exact Hin|apply String.eqb_refl].
Qed.

(** The matching loop yields one net cost for every entry row whose
    contract has an exit. *)
Lemma match_costs_length (entries exits : list (string * OrderRecord)) :
  List.length (match_costs entries exits)
  = List.length (filter (fun c => existsb (String.eqb c) (map fst exits)) (map fst entries)).
Proof.
  unfold match_costs.
  assert (Hgen : forall cs, incl cs (map fst entries) ->
            List.length
              (flat_map (fun contract =>
                           match first_total entries contract, first_total exits contract with
                           | Some a, Some b => [a + b]
                           | _, _ => []
                           end) cs)
            = List.length (filter (fun c => existsb (String.eqb c) (map fst exits)) cs)).
  { induction cs as [|c cs IH]; intros Hincl; simpl; [reflexivity|].
    rewrite length_app, IH by (intros x Hx; apply Hincl; now right).
    assert (Hc : In c (map fst entries)) by (apply Hincl; now left).
    apply first_total_found in Hc.
    destruct (first_total entries c) as [a|]; [|contradiction].
    destruct (existsb (String.eqb c) (map fst exits)) eqn:Hmem.
    - apply existsb_eqb_In, first_total_found in Hmem.
      destruct (first_total exits c); [reflexivity|contradiction].
    - destruct (first_total exits c) eqn:Hx; [|reflexivity].
      assert (Hin : In c (map fst exits)) by (apply first_total_found; congruence).
      apply existsb_eqb_In in Hin. congruence. }
  apply Hgen. apply incl_refl.
Qed.

(** When no contract is entered twice or exited twice and every exit has
    its entry, there are as many matched round trips as exit rows. *)
Lemma one_trip_per_contract (entries exits : DataFrame) (ce cx : list string)
      (costs : list Z) :
  contracts entries = Ok ce ->
  contracts exits = Ok cx ->
  NoDup ce -> NoDup cx -> incl cx ce ->
  round_trips entries exits = Ok costs ->
  List.length costs = List.length exits.
Proof.
  intros Hce Hcx Dce Dcx Hincl. unfold round_trips. rewrite Hce, Hcx. simpl.
  intros H; injection H as <-.
  pose proof (mapM_length _ _ _ Hce) as Lce. pose proof (mapM_length _ _ _ Hcx) as Lcx.
  rewrite match_costs_length, !map_fst_zip by assumption.
  rewrite <- Lcx. apply Nat.le_antisymm.
  - apply NoDup_incl_length; [now apply NoDup_filter|].
    intros c Hc. apply filter_In in Hc as [_ Hc]. now apply existsb_eqb_In.
  - apply NoDup_incl_length; [assumption|].
    intros c Hc. apply filter_In. split; [now apply Hincl|now apply existsb_eqb_In].
Qed.

(** A table the call returns is the table built at line 153. *)
Lemma summary_call_inv {Options : Type} (self : Backtest Options) (st : Summary) :
  snd (summary_call self) = Ok st ->
  snd (summary self) = Ok st
  /\ fst (summary_call self) = fst (summary self)
  /\ exists table, monthly_returns (trade_log (fst (summary self))) = Ok table.
Proof.
  unfold summary_call. cbn [fst snd]. unfold bind.
  destruct (snd (summary self)) as [st'|]; [|discriminate].
  destruct (monthly_returns _) as [table|]; [|discriminate].
  intros H; injection H as <-. repeat split. now exists table.
Qed.


Lemma win_loss_counts_of_table {Options : Type} (self : Backtest Options) (st : Summary) :
  snd (summary self) = Ok st ->
  exists entries exits costs,
    partition_log (trade_log (fst (summary self))) = Ok (entries, exits)
    /\ round_trips entries exits = Ok costs
    /\ matched_costs (trade_log (fst (summary self))) = Ok costs
    /\ win_number st = count (fun c => c <? 0) costs
    /\ total_trades st = Z.of_nat (List.length exits)
    /\ loss_number st = total_trades st - win_number st
    /\ win_number st + loss_number st = Z.of_nat (List.length exits)
    /\ count (fun c => c <? 0) costs + count (fun c => c >=? 0) costs
       = Z.of_nat (List.length costs)
    /\ (loss_number st = count (fun c => c >=? 0) costs
        <-> List.length costs = List.length exits)
    /\ (win_number st + loss_number st = Z.of_nat (List.length costs)
        <-> List.length costs = List.length exits)
    /\ (forall ce cx,
           contracts entries = Ok ce -> contracts exits = Ok cx ->
           NoDup ce -> NoDup cx -> incl cx ce ->
           loss_number st = count (fun c => c >=? 0) costs
           /\ win_number st + loss_number st = Z.of_nat (List.length costs)).
Proof.
  intros Hsum. apply summary_inv in Hsum as (strat & _ & _ & Hstat).
  apply statistics_inv in Hstat
    as (returns & mask & costs & largest & caps & final & _ & Hm & Hc & _ & _ & _ & ->).
  exists (loc (trade_log (fst (summary self))) mask),
         (loc (trade_log (fst (summary self))) (map negb mask)), costs.
  pose proof (count_complement costs) as Hcount.
  cbn [win_number total_trades loss_number].
  unfold partition_log, matched_costs, partition_log. rewrite Hm. cbn [bind fst snd].
  split; [reflexivity|]. split; [exact Hc|]. split; [exact Hc|].
  split; [reflexivity|]. split; [reflexivity|]. split; [reflexivity|].
  split; [lia|]. split; [exact Hcount|].
  split; [split; lia|]. split; [split; lia|].
  intros ce cx Hce Hcx Dce Dcx Hincl.
  pose proof (one_trip_per_contract _ _ _ _ _ Hce Hcx Dce Dcx Hincl Hc). split; lia.
Qed.



(** ** Entries and exits *)

Lemma get_in_range (s : py_str) (n : nat) :
  (n < List.length s)%nat <-> exists c, nth_error s n = Some c.
Proof.
  rewrite <- nth_error_Some. destruct (nth_error s n) as [c|].
  - split; [intros _; now exists c|discriminate].
  - split; [congruence|intros [c H]; discriminate].
Qed.

(** A row is an entry exactly when the order string of its [leg_1] column
    has the character [O] at index 2. *)
Lemma is_entry_true (row : OrderRecord) :
  is_entry row = Ok true
  <-> exists leg, lookup_leg "leg_1" (legs row) = Ok leg
                  /\ nth_error (Leg.order leg) 2 = Some letter_O.
Proof.
  unfold is_entry, str_index, bind. split.
  - destruct (lookup_leg "leg_1" (legs row)) as [leg|]; [|discriminate].
    destruct (nth_error (Leg.order leg) 2) as [c|] eqn:Hget; [|discriminate].
    intros H; injection H as H. apply N.eqb_eq in H. subst. now exists leg.
  - intros (leg & -> & ->). reflexivity.
Qed.

Lemma is_entry_false (row : OrderRecord) :
  is_entry row = Ok false
  <-> exists leg c, lookup_leg "leg_1" (legs row) = Ok leg
                    /\ nth_error (Leg.order leg) 2 = Some c
                    /\ c <> letter_O.
Proof.
  unfold is_entry, str_index, bind. split.
  - destruct (lookup_leg "leg_1" (legs row)) as [leg|]; [|discriminate].
    destruct (nth_error (Leg.order leg) 2) as [c|] eqn:Hget; [|discriminate].
    intros H; injection H as H. apply N.eqb_neq in H. now exists leg, c.
  - intros (leg & c & -> & -> & Hc). apply N.eqb_neq in Hc. now rewrite Hc.
Qed.

(** What [is_entry] raises, and when. *)
Lemma is_entry_raises (row : OrderRecord) (e : exn) :
  is_entry row = Raise e
  <-> (lookup_leg "leg_1" (legs row) = Raise e)
      \/ (e = IndexError
          /\ exists leg, lookup_leg "leg_1" (legs row) = Ok leg
                         /\ (List.length (Leg.order leg) < 3)%nat).
Proof.
  unfold is_entry, str_index, bind.
  destruct (lookup_leg "leg_1" (legs row)) as [leg|e'].
  - destruct (nth_error (Leg.order leg) 2) as [c|] eqn:Hget.
    + split; [discriminate|]. intros [H|(_ & leg' & H & Hlen)]; [discriminate|].
      injection H as <-.
      assert (2 < List.length (Leg.order leg))%nat by (apply get_in_range; eauto). lia.
    + split.
      * intros H; injection H as <-. right. split; [reflexivity|]. exists leg.
        split; [reflexivity|].
        destruct (Nat.lt_ge_cases 2 (List.length (Leg.order leg))) as [Hlt|Hge]; [|lia].
        apply get_in_range in Hlt as [c Hc]. congruence.
      * intros [H|(-> & _)]; [discriminate|reflexivity].
  - split.
    + intros H; injection H as <-. now left.
    + intros [H|(_ & leg & H & _)]; [injection H as <-; reflexivity|discriminate].
Qed.

Lemma lookup_leg_raises (name : string) (ls : list (string * Leg.t)) (e : exn) :
  lookup_leg name ls = Raise e -> e = KeyError.
Proof.
  induction ls as [|[n l] ls IH]; simpl.
  - intros H; now injection H.
  - destruct (String.eqb n name); [discriminate|exact IH].
Qed.

Lemma mapM_nth {A B : Type} (f : A -> result B) (l : list A) (l' : list B) :
  mapM f l = Ok l' ->
  forall i a, nth_error l i = Some a -> exists b, nth_error l' i = Some b /\ f a = Ok b.
Proof.
  revert l'; induction l as [|x l IH]; intros l'; simpl.
  - intros _ [|i] a H; discriminate.
  - unfold bind. destruct (f x) as [b|] eqn:Hfx; [|discriminate].
    destruct (mapM f l) as [bs|]; [|discriminate].
    intros H; injection H as <-. intros [|i] a Ha; simpl in *.
    + injection Ha as <-. now exists b.
    + now apply (IH bs).
Qed.

Lemma mapM_total {A B : Type} (f : A -> result B) (l : list A) :
  (forall a, In a l -> exists b, f a = Ok b) -> exists l', mapM f l = Ok l'.
Proof.
  induction l as [|x l IH]; intros Hall; simpl.
  - now exists [].
  - destruct (Hall x (or_introl eq_refl)) as [b ->].
    destruct IH as [bs ->]; [intros a Ha; apply Hall; now right|].
    simpl. eexists; reflexivity.
Qed.

Lemma mapM_raises {A B : Type} (f : A -> result B) (l : list A) (a : A) (e : exn) :
  In a l -> f a = Raise e ->
  exists a' e', In a' l /\ f a' = Raise e' /\ mapM f l = Raise e'.
Proof.
  induction l as [|x l IH]; intros Hin Hfa; [destruct Hin|]. simpl.
  destruct (f x) as [b|e'] eqn:Hfx.
  - destruct Hin as [->|Hin]; [congruence|].
    destruct (IH Hin Hfa) as (a' & e' & Hin' & Hfa' & Hm).
    exists a', e'. rewrite Hm. simpl. repeat split; [now right|assumption].
  - exists x, e'. simpl. repeat split; [now left|assumption].
Qed.

Lemma loc_partition (df : DataFrame) (mask : list bool) :
  List.length mask = List.length df ->
  Permutation (loc df mask ++ loc df (map negb mask)) df.
Proof.
  unfold loc. revert mask; induction df as [|r df IH]; intros [|b mask] Hlen;
    simpl in *; try discriminate; [constructor|].
  injection Hlen as Hlen. specialize (IH mask Hlen).
  destruct b; simpl.
  - now constructor.
  - apply Permutation_sym, Permutation_cons_app, Permutation_sym, IH.
Qed.

Lemma loc_In (df : DataFrame) (mask : list bool) (row : OrderRecord) :
  In row (loc df mask) ->
  exists i, nth_error df i = Some row /\ nth_error mask i = Some true.
Proof.
  unfold loc. revert mask; induction df as [|r df IH]; intros [|b mask]; simpl;
    try (intros []).
  destruct b; simpl.
  - intros [<-|Hin].
    + now exists 0%nat.
    + destruct (IH mask Hin) as (i & H1 & H2). now exists (S i).
  - intros Hin. destruct (IH mask Hin) as (i & H1 & H2). now exists (S i).
Qed.

(** [summary] reads the legs of the rows as they were logged. *)
Lemma is_entry_written (initial : Z) (df : DataFrame) :
  mapM is_entry (write_capital initial df) = mapM is_entry df.
Proof.
  unfold write_capital.
  assert (Hgen : forall caps, List.length caps = List.length df ->
            mapM is_entry (map (fun p => set_capital (fst p) (snd p)) (combine df caps))
            = mapM is_entry df).
  { induction df as [|r df IH]; intros [|c caps] Hlen; simpl in *; try discriminate;
      [reflexivity|].
    injection Hlen as Hlen. rewrite (IH caps Hlen). reflexivity. }
  apply Hgen, capital_column_length.
Qed.

Lemma entries_mask_rows (df : DataFrame) :
  df <> [] -> entries_mask df = mapM is_entry df.
Proof. destruct df; [congruence|reflexivity]. Qed.

Lemma entries_mask_inv (df : DataFrame) (mask : list bool) :
  entries_mask df = Ok mask -> df <> [] /\ mapM is_entry df = Ok mask.
Proof. destruct df; [discriminate|]. intros H. split; [discriminate|exact H]. Qed.

Lemma entries_mask_written (initial : Z) (df : DataFrame) :
  entries_mask (write_capital initial df) = entries_mask df.
Proof.
  destruct df as [|r df]; [reflexivity|].
  rewrite !entries_mask_rows; [apply is_entry_written|discriminate|].
  intros H. apply (f_equal (@List.length _)) in H.
  rewrite write_capital_length in H. discriminate H.
Qed.

Lemma dated_rows_written (initial : Z) (df : DataFrame) :
  mapM (fun r => c <- get_capital r ;; Ok (Totals.date (totals r), c))
       (write_capital initial df)
  = Ok (dated_capital initial df).
Proof.
  unfold write_capital, dated_capital.
  assert (Hgen : forall caps, List.length caps = List.length df ->
            mapM (fun r => c <- get_capital r ;; Ok (Totals.date (totals r), c))
                 (map (fun p => set_capital (fst p) (snd p)) (combine df caps))
            = Ok (combine (map (fun r => Totals.date (totals r)) df) caps)).
  { induction df as [|r df IH]; intros [|c caps] Hlen; simpl in *; try discriminate;
      [reflexivity|].
    injection Hlen as Hlen. rewrite (IH caps Hlen). reflexivity. }
  apply Hgen, capital_column_length.
Qed.

Lemma daily_returns_written (initial : Z) (df : DataFrame) :
  daily_returns (write_capital initial df)
  = Ok (pct_change100
          (map snd (fold_left group_row (dated_capital initial df) []))).
Proof.
  unfold daily_returns, daily_capital. rewrite dated_rows_written. reflexivity.
Qed.

(** C10 does not hold of a frame without rows: every row of it, there
    being none, has its [leg_1] column and its order string, and yet the
    selection of line 113 refuses the empty result of [apply]. *)
Lemma rowless_frame_is_refused :
  (forall row, In row [] ->
     exists leg, lookup_leg "leg_1" (legs row) = Ok leg
                 /\ (3 <= List.length (Leg.order leg))%nat)
  /\ entries_mask [] = Raise ValueError
  /\ partition_log [] = Raise ValueError.
Proof. split; [intros row []|split; reflexivity]. Qed.

(** C10 (the [leg_1] convention), amended.  On a frame with at least one
    row, whose rows all have a [leg_1] column with an order string of at
    least three characters (code points),
    the split into entries and exits never raises: the mask has one
    boolean per row, true exactly when the character at index 2 of that
    order string is [O]; every row lands in exactly one of the two parts,
    the entries being the rows with that [O].  Nothing checks the
    precondition: a row without a [leg_1] column, or with a shorter order
    string, makes the split raise ([KeyError] or [IndexError]), and
    [summary] with it. *)
Theorem leg_1_partition (df : DataFrame) :
  (df <> [] ->
   (forall row, In row df ->
       exists leg, lookup_leg "leg_1" (legs row) = Ok leg
                   /\ (3 <= List.length (Leg.order leg))%nat) ->
   exists mask,
     entries_mask df = Ok mask
     /\ partition_log df = Ok (loc df mask, loc df (map negb mask))
     /\ List.length mask = List.length df
     /\ (forall i row,
            nth_error df i = Some row ->
            exists leg,
              lookup_leg "leg_1" (legs row) = Ok leg
              /\ (nth_error mask i = Some true
                  <-> nth_error (Leg.order leg) 2 = Some letter_O)
              /\ (nth_error mask i = Some false
                  <-> nth_error (Leg.order leg) 2 <> Some letter_O))
     /\ Permutation (loc df mask ++ loc df (map negb mask)) df
     /\ (forall row, In row (loc df mask) -> is_entry row = Ok true)
     /\ (forall row, In row (loc df (map negb mask)) -> is_entry row = Ok false))
  /\ (forall row,
         In row df ->
         lookup_leg "leg_1" (legs row) = Raise KeyError
         \/ (exists leg, lookup_leg "leg_1" (legs row) = Ok leg
                         /\ (List.length (Leg.order leg) < 3)%nat) ->
         exists e,
           (e = KeyError \/ e = IndexError)
           /\ entries_mask df = Raise e
           /\ partition_log df = Raise e
           /\ forall (Options : Type) (self : Backtest Options) (strat : Strategy Options),
               _strategy self = Some strat ->
               trade_log self = df ->
               snd (summary self) = Raise e).
Proof.
  split.
  - intros Hrows Hpre.
    destruct (mapM_total is_entry df) as [mask Hmask].
    { intros row Hin. destruct (Hpre row Hin) as (leg & Hleg & Hlen).
      destruct (proj1 (get_in_range (Leg.order leg) 2) Hlen) as [c Hc].
      unfold is_entry, str_index. rewrite Hleg. cbn [bind]. rewrite Hc. cbn [bind].
      eexists; reflexivity. }
    assert (Hrow : forall i row b, nth_error df i = Some row ->
                                   nth_error mask i = Some b -> is_entry row = Ok b).
    { intros i row b Hi Hb. destruct (mapM_nth _ _ _ Hmask i row Hi) as (b' & Hb' & Hf).
      congruence. }
    pose proof (mapM_length _ _ _ Hmask) as Hlen.
    exists mask. unfold partition_log. rewrite (entries_mask_rows df Hrows), Hmask. cbn [bind].
    split; [reflexivity|]. split; [reflexivity|]. split; [exact Hlen|].
    split; [|split; [now apply loc_partition|split]].
    + intros i row Hi.
      destruct (mapM_nth _ _ _ Hmask i row Hi) as (b & Hb & Hf).
      destruct (Hpre row (nth_error_In _ _ Hi)) as (leg & Hleg & _).
      exists leg. split; [exact Hleg|]. rewrite Hb. split; split.
      * intros H; injection H as ->. apply is_entry_true in Hf as (leg' & Hl' & Hg).
        congruence.
      * intros Hg. destruct b; [reflexivity|].
        apply is_entry_false in Hf as (leg' & c & Hl' & Hc & Hne). congruence.
      * intros H; injection H as ->.
        apply is_entry_false in Hf as (leg' & c & Hl' & Hc & Hne). congruence.
      * intros Hg. destruct b; [|reflexivity].
        apply is_entry_true in Hf as (leg' & Hl' & Hg'). congruence.
    + intros row Hin. apply loc_In in Hin as (i & Hi & Hb). now apply (Hrow i).
    + intros row Hin. apply loc_In in Hin as (i & Hi & Hb).
      rewrite nth_error_map in Hb. destruct (nth_error mask i) as [b|] eqn:Hm; [|discriminate].
      simpl in Hb. injection Hb as Hb. apply (Hrow i row b Hi) in Hm.
      destruct b; [discriminate|exact Hm].
  - intros row Hin Hbad.
    assert (Hraise : exists e, is_entry row = Raise e).
    { destruct Hbad as [Hk|(leg & Hleg & Hlen)].
      - exists KeyError. apply is_entry_raises. now left.
      - exists IndexError. apply is_entry_raises. right. split; [reflexivity|now exists leg]. }
    destruct Hraise as [e0 He0].
    destruct (mapM_raises is_entry df row e0 Hin He0) as (row' & e & _ & He & Hm).
    assert (Hmask' : entries_mask df = Raise e).
    { rewrite entries_mask_rows; [exact Hm|]. intros ->. destruct Hin. }
    exists e. split; [|split; [exact Hmask'|split]].
    + apply is_entry_raises in He as [Hk|[-> _]]; [|now right].
      left. now apply lookup_leg_raises in Hk.
    + unfold partition_log. rewrite Hmask'. reflexivity.
    + intros Options self strat Hs <-. unfold summary. rewrite Hs. cbn [snd].
      unfold statistics. rewrite daily_returns_written. cbn [bind].
      rewrite entries_mask_written, Hmask'. reflexivity.
Qed.

Lemma leg_1_partition_witness :
  partition_log [single_leg "X" "BTO" 100 1 1; single_leg "X" "STC" (-150) 1 3]
  = Ok ([single_leg "X" "BTO" 100 1 1], [single_leg "X" "STC" (-150) 1 3])
  /\ entries_mask [single_leg "X" "BTO" 100 1 1; single_leg "X" "ST" (-150) 1 3]
     = Raise IndexError.
Proof.
  split.
  - destruct (proj1 (leg_1_partition
                       [single_leg "X" "BTO" 100 1 1; single_leg "X" "STC" (-150) 1 3]))
      as (mask & Hmask & Hpart & _).
    { discriminate. }
    { intros row [<-|[<-|[]]]; eexists; (split; [reflexivity|simpl; lia]). }
    rewrite Hpart. injection Hmask as <-. reflexivity.
  - destruct (proj2 (leg_1_partition
                       [single_leg "X" "BTO" 100 1 1; single_leg "X" "ST" (-150) 1 3])
                    (single_leg "X" "ST" (-150) 1 3))
      as (e & _ & He & _).
    { right. now left. }
    { right. eexists. split; [reflexivity|simpl; lia]. }
    rewrite He. injection He as <-. reflexivity.
Defined.

(** ** Daily capital and daily returns *)

Lemma assoc_upsert (d c q : Z) (l : list (Z * Z)) :
  assoc q (upsert d c l) = if q =? d then Some c else assoc q l.
Proof.
  induction l as [|[d' c'] l IH]; simpl; [reflexivity|].
  destruct (d =? d') eqn:Hdd'.
  - apply Z.eqb_eq in Hdd'; subst d'. simpl. destruct (q =? d); reflexivity.
  - destruct (d <? d'); simpl; [reflexivity|].
    rewrite IH. destruct (q =? d') eqn:Hq, (q =? d) eqn:Hq'; try reflexivity.
    apply Z.eqb_eq in Hq, Hq'. apply Z.eqb_neq in Hdd'. congruence.
Qed.

Lemma HdRel_upsert (a d c : Z) (l : list (Z * Z)) :
  a < d -> HdRel Z.lt a (map fst l) -> HdRel Z.lt a (map fst (upsert d c l)).
Proof.
  intros Had Hhd. destruct l as [|[d' c'] l]; simpl.
  - now constructor.
  - destruct (d =? d'); [now constructor|].
    destruct (d <? d'); [now constructor|].
    simpl in Hhd. inversion Hhd; subst. now constructor.
Qed.

Lemma Sorted_upsert (d c : Z) (l : list (Z * Z)) :
  Sorted Z.lt (map fst l) -> Sorted Z.lt (map fst (upsert d c l)).
Proof.
  induction l as [|[d' c'] l IH]; simpl; intros Hs.
  - repeat constructor.
  - inversion Hs as [|? ? Hs' Hhd]; subst.
    destruct (d =? d') eqn:Hdd'.
    + apply Z.eqb_eq in Hdd'; subst d'. now constructor.
    + destruct (d <? d') eqn:Hlt.
      * apply Z.ltb_lt in Hlt. constructor; [exact Hs|]. now constructor.
      * constructor; [now apply IH|].
        apply HdRel_upsert; [|exact Hhd].
        apply Z.eqb_neq in Hdd'. apply Z.ltb_ge in Hlt. simpl. lia.
Qed.

Lemma upsert_not_nil (d c : Z) (l : list (Z * Z)) : upsert d c l <> [].
Proof.
  destruct l as [|[d' c'] l]; simpl; [discriminate|].
  destruct (d =? d'); [discriminate|]. destruct (d <? d'); discriminate.
Qed.

Lemma group_sorted (rows acc : list (Z * Z)) :
  Sorted Z.lt (map fst acc) -> Sorted Z.lt (map fst (fold_left group_row rows acc)).
Proof.
  revert acc; induction rows as [|p rows IH]; intros acc Hs; simpl; [exact Hs|].
  apply IH. now apply Sorted_upsert.
Qed.

Lemma group_assoc (rows acc : list (Z * Z)) (q : Z) :
  assoc q (fold_left group_row rows acc)
  = fold_left (fun a p => if fst p =? q then Some (snd p) else a) rows (assoc q acc).
Proof.
  revert acc; induction rows as [|p rows IH]; intros acc; simpl; [reflexivity|].
  rewrite IH. unfold group_row. rewrite assoc_upsert, (Z.eqb_sym q). reflexivity.
Qed.

Lemma group_not_nil (rows acc : list (Z * Z)) :
  acc <> [] -> fold_left group_row rows acc <> [].
Proof.
  revert acc; induction rows as [|p rows IH]; intros acc Hacc; simpl; [exact Hacc|].
  apply IH, upsert_not_nil.
Qed.

(** The groups of a frame: dates in increasing order, each with the
    capital of the last row bearing that date. *)
Lemma grouping_spec (rows : list (Z * Z)) :
  Sorted Z.lt (map fst (fold_left group_row rows []))
  /\ (forall d, assoc d (fold_left group_row rows []) = last_on d rows)
  /\ (rows <> [] -> fold_left group_row rows [] <> []).
Proof.
  split; [apply group_sorted; constructor|]. split.
  - intros d. apply group_assoc.
  - destruct rows as [|p rows]; [congruence|]. intros _. simpl.
    apply group_not_nil, upsert_not_nil.
Qed.

(** Return [i] of the series after the first is the change from daily
    capital [i] to daily capital [i + 1]. *)
Lemma pct_from_nth (l : list Z) (prev : Z) (i : nat) (cur : Z) :
  nth_error l i = Some cur ->
  nth_error (pct_from prev l) i
  = Some (xmul100 (xsub1 (xdivZ cur (nth i (prev :: l) 0)))).
Proof.
  revert prev i; induction l as [|x l IH]; intros prev [|i]; simpl; try discriminate.
  - intros H; injection H as <-. reflexivity.
  - intros H. now rewrite (IH x i H).
Qed.

Lemma pct_from_length (l : list Z) (prev : Z) :
  List.length (pct_from prev l) = List.length l.
Proof.
  revert prev; induction l as [|x l IH]; intros prev; simpl; [reflexivity|].
  now rewrite IH.
Qed.

Lemma pct_from_defined (l : list Z) (prev : Z) :
  prev <> 0 -> Forall (fun c => c <> 0) l ->
  forallb (fun x => negb (is_nan x)) (pct_from prev l) = true.
Proof.
  revert prev; induction l as [|x l IH]; intros prev Hprev Hall; simpl; [reflexivity|].
  inversion Hall; subst. rewrite IH by assumption.
  unfold xdivZ. apply Z.eqb_neq in Hprev. rewrite Hprev. reflexivity.
Qed.

Lemma filter_all {A : Type} (f : A -> bool) (l : list A) :
  forallb f l = true -> filter f l = l.
Proof.
  induction l as [|a l IH]; simpl; [reflexivity|].
  intros H. apply andb_true_iff in H as [Ha Hl]. now rewrite Ha, IH.
Qed.

(** A missing first value is left out of the mean, sum and count alike. *)
Lemma series_mean_skips_first (rest : list xfloat) :
  series_mean (NaN :: rest) = series_mean rest.
Proof. reflexivity. Qed.

Lemma series_mean_defined (l : list xfloat) :
  forallb (fun x => negb (is_nan x)) l = true -> series_mean l = mean l.
Proof. intros H. unfold series_mean. now rewrite filter_all. Qed.

Lemma xsum_finite (qs : list Q) (acc : Q) :
  fold_left xadd (map Fin qs) (Fin acc) = Fin (fold_left Qplus qs acc).
Proof.
  revert acc; induction qs as [|q qs IH]; intros acc; [reflexivity|].
  simpl. apply IH.
Qed.

Lemma pct_from_changes (caps : list Z) (prev : Z) :
  prev <> 0 -> Forall (fun c => c <> 0) caps ->
  pct_from prev caps = map Fin (changes prev caps).
Proof.
  revert prev; induction caps as [|cur caps IH]; intros prev Hprev Hall; [reflexivity|].
  inversion Hall; subst. simpl. rewrite IH by assumption.
  unfold xdivZ. apply Z.eqb_neq in Hprev. rewrite Hprev. reflexivity.
Qed.

Lemma changes_length (caps : list Z) (prev : Z) :
  List.length (changes prev caps) = List.length caps.
Proof.
  revert prev; induction caps as [|cur caps IH]; intros prev; [reflexivity|].
  simpl. now rewrite IH.
Qed.

(** The mean pandas takes of a series that starts with a missing value
    and goes on with ordinary numbers is the sum of those numbers over
    their count. *)
Lemma series_mean_of_changes (q : Q) (qs : list Q) :
  series_mean (NaN :: map Fin (q :: qs)) = Fin (Qmean (q :: qs)).
Proof.
  unfold series_mean, mean. cbn [filter is_nan negb].
  assert (Hf : filter (fun x => negb (is_nan x)) (map Fin (q :: qs)) = map Fin (q :: qs)).
  { apply filter_all. apply forallb_forall. intros x Hx.
    apply in_map_iff in Hx as (y & <- & _). reflexivity. }
  rewrite Hf. unfold xsum. rewrite xsum_finite, length_map. reflexivity.
Qed.

Lemma by_year_nil (dated : list (Z * xfloat)) : by_year dated = [] -> dated = [].
Proof.
  destruct dated as [|row dated]; [reflexivity|]. cbn [by_year fold_right].
  destruct (fold_right _ [] dated) as [|[y l] groups]; [discriminate|].
  destruct (y =? year_of (fst row)); discriminate.
Qed.



(** ** Further scenarios *)

(** Two exits in one period: both rows are logged, both positions leave
    the ledger, and the capital moves by the sum of the two costs. *)
Example two_exits_in_one_period :
  _execute_exit
    {| _strategy := Some idle_strategy;
       _data := None;
       inventory := [single_leg "A" "BTO" 10 1 1; single_leg "B" "BTO" 20 1 1];
       trade_log := [single_leg "A" "BTO" 10 1 1; single_leg "B" "BTO" 20 1 1];
       stop_if_broke := true;
       current_capital := 20 |}
    ([single_leg "A" "STC" (-15) 1 2; single_leg "B" "STC" (-30) 1 2],
     [true; true], [-15; -30])
  = Ok {| _strategy := Some idle_strategy;
          _data := None;
          inventory := [];
          trade_log := [single_leg "A" "BTO" 10 1 1; single_leg "B" "BTO" 20 1 1;
                        single_leg "A" "STC" (-15) 1 2; single_leg "B" "STC" (-30) 1 2];
          stop_if_broke := true;
          current_capital := 65 |}.
Proof. reflexivity. Qed.

(** The engine takes the exit costs from the signal, not from the exit
    rows: conservation rests on the strategy reporting the rows' own
    total prices. *)
Example exit_costs_come_from_the_signal :
  ~ exits_priced mispriced_exit_strategy
  /\ current_capital (after_run (configured mispriced_exit_strategy [1] true)) = 995
  /\ trade_log (after_run (configured mispriced_exit_strategy [1] true))
     = [single_leg "X" "STC" 1 1 1].
Proof.
  split; [|split; reflexivity].
  intros H. specialize (H 1 [] 1). discriminate H.
Qed.

(** A run without a configured strategy, or on data of another schema,
    fails its assertions. *)
Example run_asserts_configuration :
  run (Backtest_init (Options := Z)) false = Raise AssertionError
  /\ run (set_data (set_strategy Backtest_init round_trip_strategy)
                   {| data_schema := "stocks"; iter_dates := [(1, 1)]; iter_months := [] |})
         false
     = Raise AssertionError.
Proof. split; reflexivity. Qed.

(** * The engine beyond the single steps *)

(** ** The exit mask *)

Lemma drop_marked_spec (inv : DataFrame) (mask : list bool) (inv' : DataFrame) :
  drop_marked inv mask = Ok inv' ->
  List.length mask = List.length inv /\ inv' = unmarked inv mask.
Proof.
  unfold unmarked, loc. revert mask inv'; induction inv as [|r inv IH];
    intros [|b mask] inv'; simpl; try discriminate.
  - intros H; injection H as <-. split; reflexivity.
  - unfold bind. destruct (drop_marked inv mask) as [rest|] eqn:Hrest; [|discriminate].
    intros H; injection H as <-. destruct (IH mask rest Hrest) as [Hlen ->].
    split; [now rewrite Hlen|]. destruct b; reflexivity.
Qed.

Lemma drop_marked_raises (inv : DataFrame) (mask : list bool) (e : exn) :
  drop_marked inv mask = Raise e -> e = ValueError.
Proof.
  revert mask; induction inv as [|r inv IH]; intros [|b mask]; simpl;
    try discriminate; try (intros H; now injection H).
  destruct (drop_marked inv mask) as [rest|e'] eqn:Hrest; cbn [bind]; [discriminate|].
  intros H; injection H as <-. now apply (IH mask).
Qed.

Lemma drop_masked_raises (inv : DataFrame) (mask : list bool) (e : exn) :
  drop_masked inv mask = Raise e -> e = ValueError.
Proof.
  destruct mask as [|b mask]; [discriminate|]. apply drop_marked_raises.
Qed.

Lemma loc_incl (df : DataFrame) (mask : list bool) : incl (loc df mask) df.
Proof.
  intros r Hin. apply loc_In in Hin as (i & Hi & _). exact (nth_error_In _ _ Hi).
Qed.

Lemma loc_length_le (df : DataFrame) (mask : list bool) :
  (List.length (loc df mask) <= List.length df)%nat.
Proof.
  unfold loc. rewrite length_map.
  etransitivity; [apply filter_length_le|].
  rewrite length_combine. apply Nat.le_min_l.
Qed.

(** Whatever the mask, an exit step only takes rows out of the ledger. *)
Lemma drop_masked_sub (inv : DataFrame) (mask : list bool) (inv' : DataFrame) :
  drop_masked inv mask = Ok inv' ->
  incl inv' inv /\ (List.length inv' <= List.length inv)%nat.
Proof.
  destruct mask as [|b mask]; cbn [drop_masked].
  - intros H; injection H as <-. split; [intros r []|simpl; lia].
  - intros H. apply drop_marked_spec in H as [_ ->]. unfold unmarked.
    split; [apply loc_incl|apply loc_length_le].
Qed.

Lemma unmarked_length (df : DataFrame) (mask : list bool) :
  List.length mask = List.length df ->
  (List.length (unmarked df mask) + marked mask = List.length df)%nat.
Proof.
  unfold unmarked, marked, loc. revert mask; induction df as [|r df IH];
    intros [|b mask] Hlen; simpl in *; try discriminate; [reflexivity|].
  injection Hlen as Hlen. specialize (IH mask Hlen).
  destruct b; simpl; lia.
Qed.

(** X1 (exit step and ledger).  An exit step given, as its mask, a list
    with one boolean per ledger row succeeds, and leaves in the ledger
    exactly the rows the mask does not mark, in their order: as many rows
    fewer as the mask marks, none added. *)
Theorem exit_removes_marked_rows {Options : Type} (self : Backtest Options)
        (exits : DataFrame) (mask : list bool) (total_costs : list Z) :
  List.length mask = List.length (inventory self) ->
  exists self1,
    _execute_exit self (exits, mask, total_costs) = Ok self1
    /\ inventory self1 = unmarked (inventory self) mask
    /\ (List.length (inventory self1) + marked mask = List.length (inventory self))%nat
    /\ incl (inventory self1) (inventory self).
Proof.
  intros Hlen.
  destruct (drop_masked_fits (inventory self) mask Hlen) as [inv' Hinv'].
  unfold _execute_exit. rewrite Hinv'. cbn [bind]. eexists. split; [reflexivity|].
  cbn [inventory].
  assert (Heq : inv' = unmarked (inventory self) mask).
  { destruct mask as [|b mask].
    - destruct (inventory self); [|discriminate Hlen]. now injection Hinv' as <-.
    - now apply drop_marked_spec in Hinv' as [_ ->]. }
  subst inv'. split; [reflexivity|]. split; [now apply unmarked_length|apply loc_incl].
Qed.

Lemma exit_removes_marked_rows_witness :
  exists self1,
    _execute_exit holding_Y ([single_leg "Y" "STC" (-150) 1 2], [true], [-150]) = Ok self1
    /\ inventory self1 = [].
Proof.
  destruct (exit_removes_marked_rows holding_Y [single_leg "Y" "STC" (-150) 1 2]
                                     [true] [-150] eq_refl)
    as (self1 & Hexit & Hinv & _).
  exists self1. split; [exact Hexit|exact Hinv].
Defined.

(** ** Invariants of the loop *)

Lemma period_inv {Options : Type} (strat : Strategy Options) (self self' : Backtest Options)
      (p : Z * Options) :
  period strat self p = Ok self' ->
  exists self1,
    _execute_exit self (filter_exits strat (snd p) (inventory self) (fst p)) = Ok self1
    /\ self' = _execute_entry self1 (filter_entries strat (snd p) (inventory self) (fst p)).
Proof.
  destruct p as [date options]. unfold period, bind. cbn [fst snd].
  destruct (_execute_exit self _) as [self1|] eqn:Hexit; [|discriminate].
  intros H; injection H as <-. now exists self1.
Qed.

Lemma period_raises {Options : Type} (strat : Strategy Options) (self : Backtest Options)
      (p : Z * Options) (e : exn) :
  period strat self p = Raise e -> e = ValueError.
Proof.
  destruct p as [date options]. unfold period, _execute_exit.
  destruct (filter_exits strat options (inventory self) date) as [[exits mask] tc].
  destruct (drop_masked (inventory self) mask) as [inv|e'] eqn:Hdrop; cbn [bind].
  - discriminate.
  - intros H; injection H as <-. now apply drop_masked_raises in Hdrop.
Qed.

(** A property every period keeps holds after the loop. *)
Lemma run_loop_invariant {Options : Type} (strat : Strategy Options)
      (P : Backtest Options -> Prop) :
  (forall self p self', P self -> period strat self p = Ok self' -> P self') ->
  forall it self self', P self -> run_loop strat self it = Ok self' -> P self'.
Proof.
  intros Hstep. induction it as [|p it IH]; intros self self' HP; simpl.
  - intros H; injection H as <-. exact HP.
  - unfold bind. destruct (period strat self p) as [self1|] eqn:Hp; [|discriminate].
    apply IH. exact (Hstep _ _ _ HP Hp).
Qed.

Lemma run_loop_raises {Options : Type} (strat : Strategy Options)
      (it : list (Z * Options)) (self : Backtest Options) (e : exn) :
  run_loop strat self it = Raise e -> e = ValueError.
Proof.
  revert self; induction it as [|p it IH]; intros self; simpl; [discriminate|].
  destruct (period strat self p) as [self1|e'] eqn:Hp; cbn [bind].
  - apply IH.
  - intros H; injection H as <-. now apply period_raises in Hp.
Qed.

(** Neither step touches the configuration. *)
Lemma period_configuration {Options : Type} (strat : Strategy Options)
      (self self' : Backtest Options) (p : Z * Options) :
  period strat self p = Ok self' ->
  _strategy self' = _strategy self
  /\ _data self' = _data self
  /\ stop_if_broke self' = stop_if_broke self.
Proof.
  intros Hp. apply period_inv in Hp as (self1 & Hexit & ->).
  destruct (filter_exits strat (snd p) (inventory self) (fst p)) as [[exits mask] tc].
  unfold _execute_exit, bind in Hexit.
  destruct (drop_masked (inventory self) mask); [|discriminate].
  injection Hexit as <-.
  unfold _execute_entry.
  destruct (_process_entry_signals _) as [entry price]. cbn.
  destruct (negb (stop_if_broke self) || (current_capital self - sum tc >=? price));
    repeat split.
Qed.

Lemma run_loop_configuration {Options : Type} (strat : Strategy Options)
      (it : list (Z * Options)) (self self' : Backtest Options) :
  run_loop strat self it = Ok self' ->
  _strategy self' = _strategy self
  /\ _data self' = _data self
  /\ stop_if_broke self' = stop_if_broke self.
Proof.
  apply (run_loop_invariant strat
           (fun s => _strategy s = _strategy self /\ _data s = _data self
                     /\ stop_if_broke s = stop_if_broke self)).
  - intros s p s' (H1 & H2 & H3) Hp.
    apply period_configuration in Hp as (G1 & G2 & G3). repeat split; congruence.
  - repeat split.
Qed.

(** X2 (the assertions of [run]).  [run] fails with [AssertionError]
    exactly when no data source is set, no strategy is set, or their
    schemas differ: once the three assertions have passed, nothing in
    the loop raises that exception. *)
Theorem run_failures {Options : Type} (self : Backtest Options) (monthly : bool) :
  run self monthly = Raise AssertionError
  <-> _data self = None
      \/ _strategy self = None
      \/ exists data strat,
          _data self = Some data /\ _strategy self = Some strat
          /\ data_schema data <> schema strat.
Proof.
  unfold run.
  destruct (_data self) as [data|]; [|split; auto].
  destruct (_strategy self) as [strat|]; [|split; auto].
  destruct (String.eqb (data_schema data) (schema strat)) eqn:Hschema.
  - apply String.eqb_eq in Hschema.
    assert (Hno : ~ (Some data = None
                     \/ Some strat = None
                     \/ exists d s, Some data = Some d /\ Some strat = Some s
                                    /\ data_schema d <> schema s)).
    { intros [H|[H|(d & s & Hd & Hs & Hne)]]; try discriminate.
      injection Hd as <-. injection Hs as <-. contradiction. }
    destruct (run_loop strat (run_reset self) _) as [self1|e'] eqn:Hloop; cbn [bind].
    + split; [discriminate|intros H; now destruct Hno].
    + apply run_loop_raises in Hloop. subst e'.
      split; [discriminate|intros H; now destruct Hno].
  - apply String.eqb_neq in Hschema.
    split; [|reflexivity]. intros _. right. right. now exists data, strat.
Qed.

Lemma masks_fit_keep_close (strat : Strategy Z) :
  (forall options inv date,
      snd (fst (filter_exits strat options inv date)) = keep_all inv
      \/ snd (fst (filter_exits strat options inv date)) = close_all inv) ->
  masks_fit strat.
Proof.
  intros H options inv date.
  destruct (H options inv date) as [-> | ->]; apply length_map.
Qed.

Lemma round_trip_strategy_fits : masks_fit round_trip_strategy.
Proof.
  apply masks_fit_keep_close. intros options inv date. simpl.
  destruct (date =? 3); [now right|now left].
Qed.

(** X3 (what [run] returns).  On an engine with a data source and a
    strategy of the same schema, whose strategy always gives one mask
    entry per ledger row, [run] returns: its value is the trade log of the
    engine it leaves, and the strategy, the data source and
    [stop_if_broke] are as they were. *)
Theorem run_returns_configured {Options : Type} (self : Backtest Options)
        (strat : Strategy Options) (data : HistoricalOptionsData Options) (monthly : bool) :
  _strategy self = Some strat ->
  _data self = Some data ->
  data_schema data = schema strat ->
  masks_fit strat ->
  exists self',
    run self monthly = Ok (self', trade_log self')
    /\ _strategy self' = Some strat
    /\ _data self' = Some data
    /\ stop_if_broke self' = stop_if_broke self.
Proof.
  intros Hs Hd Hschema Hfit. unfold run. rewrite Hs, Hd, Hschema, String.eqb_refl.
  destruct (run_loop_returns strat (if monthly then iter_months data else iter_dates data)
                             (run_reset self) Hfit) as [self' H'].
  rewrite H'. cbn [bind]. exists self'. split; [reflexivity|].
  apply run_loop_configuration in H' as (H1 & H2 & H3). cbn in H1, H2, H3.
  repeat split; congruence.
Qed.

Lemma run_returns_configured_witness :
  exists self',
    run (configured round_trip_strategy [1; 2; 3] true) false = Ok (self', trade_log self')
    /\ _strategy self' = Some round_trip_strategy.
Proof.
  destruct (run_returns_configured (configured round_trip_strategy [1; 2; 3] true)
                                   round_trip_strategy (dates [1; 2; 3]) false
                                   eq_refl eq_refl eq_refl round_trip_strategy_fits)
    as (self' & Hrun & Hs & _).
  exists self'. split; assumption.
Defined.

(** X4 (running again).  When a run that started from the strategy's
    initial capital has returned, assigning the same strategy again and
    running again gives the same engine and the same trade log: the
    setter restores the capital, and [run] takes nothing else from the
    run before. *)
Theorem rerun_after_reassigning {Options : Type} (self self1 : Backtest Options)
        (strat : Strategy Options) (monthly : bool) (log1 : DataFrame) :
  _strategy self = Some strat ->
  current_capital self = initial_capital strat ->
  run self monthly = Ok (self1, log1) ->
  run (set_strategy self1 strat) monthly = Ok (self1, log1).
Proof.
  intros Hstrat Hcap Hrun.
  apply run_inv in Hrun as (strat' & data & Hs & Hd & Hschema & Hloop & ->).
  rewrite Hstrat in Hs; injection Hs as <-.
  pose proof (run_loop_configuration _ _ _ _ Hloop) as (_ & Hd1 & Hflag1).
  cbn in Hd1, Hflag1.
  assert (Hreset : run_reset (set_strategy self1 strat) = run_reset self).
  { unfold run_reset, set_strategy. cbn. rewrite Hd1, Hflag1, <- Hcap, <- Hstrat.
    reflexivity. }
  unfold run. cbn [_data _strategy set_strategy]. rewrite Hd1, Hd, Hschema, String.eqb_refl.
  rewrite Hreset, Hloop. reflexivity.
Qed.

Lemma rerun_after_reassigning_witness :
  run (set_strategy (after_run (configured buy_and_hold_strategy [1] true))
                    buy_and_hold_strategy) false
  = Ok (after_run (configured buy_and_hold_strategy [1] true),
        [single_leg "X" "BTO" 100 1 1]).
Proof.
  exact (rerun_after_reassigning (configured buy_and_hold_strategy [1] true)
                                 (after_run (configured buy_and_hold_strategy [1] true))
                                 buy_and_hold_strategy false
                                 [single_leg "X" "BTO" 100 1 1]
                                 eq_refl eq_refl eq_refl).
Defined.

(** ** The ledger *)

Lemma _execute_entry_ledger {Options : Type} (self : Backtest Options) (signals : DataFrame) :
  (List.length (inventory (_execute_entry self signals))
   <= S (List.length (inventory self)))%nat.
Proof.
  destruct signals as [|c rest].
  - rewrite _execute_entry_nil. lia.
  - rewrite _execute_entry_cons.
    destruct (negb (stop_if_broke self) || (current_capital self >=? total_price c)).
    + cbn [inventory]. rewrite length_app. simpl. lia.
    + lia.
Qed.

Lemma _execute_exit_ledger {Options : Type} (self self1 : Backtest Options)
      (signals : ExitSignals) :
  _execute_exit self signals = Ok self1 ->
  incl (inventory self1) (inventory self)
  /\ (List.length (inventory self1) <= List.length (inventory self))%nat.
Proof.
  destruct signals as [[exits mask] tc]. intros H.
  apply _execute_exit_ok in H as (_ & _ & _ & Hdrop).
  now apply drop_masked_sub in Hdrop.
Qed.

Lemma period_ledger {Options : Type} (strat : Strategy Options)
      (self self' : Backtest Options) (p : Z * Options) :
  period strat self p = Ok self' ->
  (incl (inventory self) (trade_log self) -> incl (inventory self') (trade_log self'))
  /\ (List.length (inventory self') <= S (List.length (inventory self)))%nat.
Proof.
  intros Hp. apply period_inv in Hp as (self1 & Hexit & ->).
  destruct (filter_exits strat (snd p) (inventory self) (fst p)) as [[exits mask] tc].
  pose proof (_execute_exit_ledger _ _ _ Hexit) as [Hincl Hlen].
  apply _execute_exit_ok in Hexit as (Hlog & _).
  split.
  - intros Hinv.
    destruct (_execute_entry_log self1
                (filter_entries strat (snd p) (inventory self) (fst p)))
      as (added & Hl & Hi & _).
    rewrite Hl, Hi, Hlog. intros r Hr. apply in_app_or in Hr as [Hr|Hr].
    + apply in_or_app. left. apply in_or_app. left. now apply Hinv, Hincl.
    + apply in_or_app. now right.
  - etransitivity; [apply _execute_entry_ledger|]. lia.
Qed.

Lemma run_loop_ledger {Options : Type} (strat : Strategy Options)
      (it : list (Z * Options)) (self self' : Backtest Options) :
  run_loop strat self it = Ok self' ->
  (incl (inventory self) (trade_log self) -> incl (inventory self') (trade_log self'))
  /\ (List.length (inventory self') <= List.length (inventory self) + List.length it)%nat.
Proof.
  revert self; induction it as [|p it IH]; intros self; simpl.
  - intros H; injection H as <-. split; [auto|lia].
  - unfold bind. destruct (period strat self p) as [self1|] eqn:Hp; [|discriminate].
    intros Hrun. apply IH in Hrun as [Hincl Hlen].
    apply period_ledger in Hp as [Hincl1 Hlen1].
    split; [auto|lia].
Qed.

(** X5 (ledger and log).  After a run, every position in the ledger is a
    row of the trade log, and the ledger holds at most one position per
    period the run went through. *)
Theorem ledger_within_log {Options : Type} (self self' : Backtest Options)
        (monthly : bool) (log : DataFrame) :
  run self monthly = Ok (self', log) ->
  incl (inventory self') log
  /\ exists data,
      _data self = Some data
      /\ (List.length (inventory self') <= List.length (periods data monthly))%nat.
Proof.
  intros Hrun. apply run_inv in Hrun as (strat & data & _ & Hd & _ & Hloop & ->).
  apply run_loop_ledger in Hloop as [Hincl Hlen]. cbn in Hincl, Hlen.
  split; [apply Hincl; intros r []|].
  exists data. split; [exact Hd|exact Hlen].
Qed.

Lemma ledger_within_log_witness :
  incl (inventory (after_run (configured reentry_strategy [1; 2; 3] true)))
       [single_leg "X" "BTO" 100 1 1; single_leg "X" "STC" (-150) 1 2;
        single_leg "X" "BTO" 100 1 3].
Proof.
  exact (proj1 (ledger_within_log (configured reentry_strategy [1; 2; 3] true)
                                  (after_run (configured reentry_strategy [1; 2; 3] true))
                                  false _ eq_refl)).
Defined.

(** ** Solvency *)

Lemma _execute_entry_solvent {Options : Type} (self : Backtest Options) (signals : DataFrame) :
  stop_if_broke self = true ->
  0 <= current_capital self ->
  0 <= current_capital (_execute_entry self signals).
Proof.
  intros Hflag Hcap. destruct signals as [|c rest].
  - now rewrite _execute_entry_nil.
  - rewrite _execute_entry_cons, Hflag. cbn [negb orb].
    destruct (current_capital self >=? total_price c) eqn:Hcmp; [|exact Hcap].
    apply Z.geb_le in Hcmp. cbn [current_capital]. lia.
Qed.

(** X6 (solvency).  With [stop_if_broke] on, a run that starts with a
    capital of zero or more, under a strategy whose exits never cost
    money (the costs it reports for a period sum to zero or less), ends
    with a capital of zero or more. *)
Theorem capital_never_negative {Options : Type} (self self' : Backtest Options)
        (strat : Strategy Options) (monthly : bool) (log : DataFrame) :
  _strategy self = Some strat ->
  stop_if_broke self = true ->
  0 <= current_capital self ->
  (forall options inv date, sum (snd (filter_exits strat options inv date)) <= 0) ->
  run self monthly = Ok (self', log) ->
  0 <= current_capital self'.
Proof.
  intros Hstrat Hflag Hcap Hexits Hrun.
  apply run_inv in Hrun as (strat' & data & Hs & _ & _ & Hloop & _).
  rewrite Hstrat in Hs; injection Hs as <-.
  assert (Hinv : stop_if_broke self' = true /\ 0 <= current_capital self').
  { apply (run_loop_invariant strat
             (fun s => stop_if_broke s = true /\ 0 <= current_capital s))
      with (self := run_reset self)
           (it := if monthly then iter_months data else iter_dates data);
      [|split; assumption|exact Hloop].
    intros s p s' [Hf Hc] Hp. apply period_inv in Hp as (s1 & Hexit & ->).
    specialize (Hexits (snd p) (inventory s) (fst p)).
    destruct (filter_exits strat (snd p) (inventory s) (fst p)) as [[exits mask] tc].
    apply _execute_exit_ok in Hexit as (_ & Hcap1 & Hflag1 & _). cbn [snd] in Hexits.
    destruct (_execute_entry_log s1 (filter_entries strat (snd p) (inventory s) (fst p)))
      as (added & _ & _ & _ & Hf').
    split; [congruence|].
    apply _execute_entry_solvent; [congruence|lia]. }
  apply Hinv.
Qed.

Lemma round_trip_exits_are_credits (options : Z) (inv : DataFrame) (date : Z) :
  sum (snd (filter_exits round_trip_strategy options inv date)) <= 0.
Proof. simpl. destruct (date =? 3); vm_compute; discriminate. Qed.

Lemma capital_never_negative_witness :
  0 <= current_capital (after_run (configured round_trip_strategy [1; 2; 3] true)).
Proof.
  apply (capital_never_negative (configured round_trip_strategy [1; 2; 3] true)
                                (after_run (configured round_trip_strategy [1; 2; 3] true))
                                round_trip_strategy false
                                [single_leg "X" "BTO" 100 1 1; single_leg "X" "STC" (-150) 1 3]
                                eq_refl eq_refl).
  - vm_compute. discriminate.
  - exact round_trip_exits_are_credits.
  - reflexivity.
Defined.

(** * [summary] beyond the counts *)

(** ** The capital column is a function of costs and quantities *)

Lemma set_capital_erased (r1 r2 : OrderRecord) (c : Z) :
  without_capital r1 = without_capital r2 -> set_capital r1 c = set_capital r2 c.
Proof.
  destruct r1 as [l1 [c1 q1 d1 k1]], r2 as [l2 [c2 q2 d2 k2]].
  unfold without_capital, set_capital. cbn. intros H. injection H as -> -> -> ->.
  reflexivity.
Qed.

Lemma capital_column_erased (initial : Z) (df1 df2 : DataFrame) :
  map without_capital df1 = map without_capital df2 ->
  capital_column initial df1 = capital_column initial df2.
Proof.
  intros H. unfold capital_column.
  assert (Hmap : map (fun r => - Totals.cost (totals r) * Totals.qty (totals r)) df1
                 = map (fun r => - Totals.cost (totals r) * Totals.qty (totals r)) df2).
  { pose (g := fun w : list (string * Leg.t) * (Z * Z * Z) =>
                 - fst (fst (snd w)) * snd (fst (snd w))).
    transitivity (map g (map without_capital df1)); [now rewrite map_map|].
    rewrite H. now rewrite map_map. }
  now rewrite Hmap.
Qed.

Lemma write_capital_erased (initial : Z) (df1 df2 : DataFrame) :
  map without_capital df1 = map without_capital df2 ->
  write_capital initial df1 = write_capital initial df2.
Proof.
  intros H. unfold write_capital. rewrite (capital_column_erased initial df1 df2 H).
  generalize (capital_column initial df2) as caps.
  revert df2 H; induction df1 as [|r1 df1 IH]; intros [|r2 df2] H caps;
    simpl in H; try discriminate; [reflexivity|].
  assert (Hr : without_capital r1 = without_capital r2) by congruence.
  assert (Hd : map without_capital df1 = map without_capital df2) by congruence.
  destruct caps as [|c caps]; [reflexivity|]. simpl.
  now rewrite (set_capital_erased r1 r2 c Hr), (IH df2 Hd caps).
Qed.

Lemma write_capital_idem (initial : Z) (df : DataFrame) :
  write_capital initial (write_capital initial df) = write_capital initial df.
Proof. apply write_capital_erased, write_capital_without. Qed.

Lemma summary_some {Options : Type} (self : Backtest Options) (strat : Strategy Options) :
  _strategy self = Some strat ->
  summary self
  = (with_trade_log self (write_capital (initial_capital strat) (trade_log self)),
     statistics (initial_capital strat)
                (write_capital (initial_capital strat) (trade_log self))).
Proof. intros H. unfold summary, with_trade_log. rewrite H. reflexivity. Qed.

Lemma summary_none {Options : Type} (self : Backtest Options) :
  _strategy self = None -> summary self = (self, Raise AttributeError).
Proof. intros H. unfold summary. rewrite H. reflexivity. Qed.

(** X7 (calling [summary] again).  [summary] reads the costs, quantities,
    dates and legs of the log and nothing of a capital column already
    there: two engines that differ only in the capital column of their
    logs get the same result, and, when a strategy is set, are left the
    same.  So a second call changes nothing more and repeats the result
    of the first. *)
Theorem summary_ignores_capital_column {Options : Type} (self : Backtest Options)
        (log : DataFrame) :
  map without_capital log = map without_capital (trade_log self) ->
  snd (summary (with_trade_log self log)) = snd (summary self)
  /\ (_strategy self <> None -> summary (with_trade_log self log) = summary self)
  /\ summary (fst (summary self)) = summary self.
Proof.
  intros H. destruct (_strategy self) as [strat|] eqn:Hs.
  - rewrite (summary_some self strat Hs).
    rewrite (summary_some (with_trade_log self log) strat Hs).
    cbn [fst snd].
    rewrite (summary_some (with_trade_log self _) strat Hs).
    cbn [with_trade_log trade_log _strategy _data inventory stop_if_broke
         current_capital].
    rewrite (write_capital_erased _ _ _ H), write_capital_idem. repeat split.
  - rewrite (summary_none self Hs), (summary_none (with_trade_log self log) Hs).
    cbn [fst snd]. rewrite (summary_none self Hs).
    split; [reflexivity|]. split; [congruence|reflexivity].
Qed.

Lemma summary_ignores_capital_column_witness :
  summary (fst (summary (after_run (configured round_trip_strategy [1; 2; 3] false))))
  = summary (after_run (configured round_trip_strategy [1; 2; 3] false)).
Proof.
  exact (proj2 (proj2 (summary_ignores_capital_column
                         (after_run (configured round_trip_strategy [1; 2; 3] false))
                         (trade_log (after_run (configured round_trip_strategy [1; 2; 3] false)))
                         eq_refl))).
Defined.

(** ** Total P&L *)

Lemma iloc_last_map (f : Z -> Z) (l : list Z) :
  iloc_last (map f l)
  = match iloc_last l with
    | Ok x => Ok (f x)
    | Raise e => Raise e
    end.
Proof.
  destruct l as [|x l]; [reflexivity|]. simpl. f_equal.
  revert x; induction l as [|y l IH]; intros x; [reflexivity|].
  specialize (IH x). destruct l as [|z l]; [reflexivity|exact IH].
Qed.

Lemma last_default (l : list Z) (x a b : Z) : last (x :: l) a = last (x :: l) b.
Proof.
  revert x; induction l as [|y l IH]; intros x; [reflexivity|].
  change (last (x :: y :: l) a) with (last (y :: l) a).
  change (last (x :: y :: l) b) with (last (y :: l) b).
  apply IH.
Qed.

Lemma iloc_last_cons (a b : Z) (l : list Z) :
  iloc_last (a :: b :: l) = iloc_last (b :: l).
Proof.
  cbn [iloc_last]. f_equal. destruct l as [|c l]; [reflexivity|].
  change (last (b :: c :: l) a) with (last (c :: l) a).
  apply last_default.
Qed.

Lemma cumsum_from_last (l : list Z) (acc x : Z) :
  iloc_last (cumsum_from acc (x :: l)) = Ok (acc + sum (x :: l)).
Proof.
  revert acc x; induction l as [|y l IH]; intros acc x.
  - simpl. rewrite sum_cons. change (sum []) with 0. apply f_equal. lia.
  - specialize (IH (acc + x) y). rewrite (sum_cons x).
    change (cumsum_from acc (x :: y :: l))
      with ((acc + x) :: (acc + x + y) :: cumsum_from (acc + x + y) l).
    rewrite iloc_last_cons.
    change ((acc + x + y) :: cumsum_from (acc + x + y) l)
      with (cumsum_from (acc + x) (y :: l)).
    rewrite IH. apply f_equal. lia.
Qed.

(** The last value of the capital column is the initial capital minus the
    total price of the whole log. *)
Lemma capital_column_last (initial : Z) (df : DataFrame) :
  df <> [] -> iloc_last (capital_column initial df) = Ok (initial - log_total df).
Proof.
  intros Hne. unfold capital_column, cumsum. rewrite iloc_last_map.
  destruct df as [|r df]; [contradiction|].
  cbn [map]. rewrite cumsum_from_last.
  change (?a :: map ?f df) with (map f (r :: df)).
  rewrite sum_negated_prices. apply f_equal. lia.
Qed.

Lemma caps_written (initial : Z) (df : DataFrame) :
  mapM get_capital (write_capital initial df) = Ok (capital_column initial df).
Proof.
  unfold write_capital.
  assert (Hgen : forall caps, List.length caps = List.length df ->
            mapM get_capital (map (fun p => set_capital (fst p) (snd p)) (combine df caps))
            = Ok caps).
  { induction df as [|r df IH]; intros [|c caps] Hlen; simpl in *; try discriminate;
      [reflexivity|].
    injection Hlen as Hlen. rewrite (IH caps Hlen). reflexivity. }
  apply Hgen, capital_column_length.
Qed.

Lemma summary_total_pl {Options : Type} (self : Backtest Options) (st : Summary) :
  snd (summary self) = Ok st ->
  exists strat,
    _strategy self = Some strat
    /\ trade_log self <> []
    /\ total_pl st
       = xmul100 (xdivZ (initial_capital strat - log_total (trade_log self))
                        (initial_capital strat)).
Proof.
  intros Hsum. apply summary_inv in Hsum as (strat & Hs & Hlog & Hstat).
  apply statistics_inv in Hstat
    as (returns & mask & costs & largest & caps & final & _ & _ & _ & _ & Hk & Hf & ->).
  rewrite Hlog, caps_written in Hk. injection Hk as <-.
  assert (Hne : trade_log self <> []).
  { intros Hnil. rewrite Hnil in Hf. discriminate Hf. }
  rewrite (capital_column_last _ _ Hne) in Hf. injection Hf as <-.
  exists strat. repeat split; assumption.
Qed.

(** X8 (Total P&L %).  The total P&L [summary] reports is the ratio, in
    per cent, of the initial capital minus the total price of all the
    rows of the log to the initial capital; it is [summary]'s own
    capital series that it reads, not the engine's capital.  A log whose
    rows net to zero is reported as 100, not as 0. *)
Theorem total_pl_is_a_ratio {Options : Type} (self : Backtest Options) (st : Summary) :
  snd (summary self) = Ok st ->
  exists strat,
    _strategy self = Some strat
    /\ total_pl st
       = xmul100 (xdivZ (initial_capital strat - log_total (trade_log self))
                        (initial_capital strat))
    /\ (log_total (trade_log self) = 0 -> initial_capital strat <> 0 ->
        exists q, total_pl st = Fin q /\ (q == 100)%Q).
Proof.
  intros Hsum. destruct (summary_total_pl self st Hsum) as (strat & Hs & _ & Hpl).
  exists strat. split; [exact Hs|]. split; [exact Hpl|].
  intros Hzero Hinit. rewrite Hpl, Hzero, Z.sub_0_r. unfold xdivZ.
  apply Z.eqb_neq in Hinit as Hinit'. rewrite Hinit'. cbn [xmul100].
  eexists. split; [reflexivity|].
  assert (Hq : ~ (inject_Z (initial_capital strat) == 0)%Q).
  { unfold Qeq. simpl. lia. }
  unfold Qdiv. rewrite (Qmult_inv_r _ Hq). reflexivity.
Qed.

Lemma total_pl_is_a_ratio_witness :
  exists st,
    snd (summary (after_run (configured round_trip_strategy [1; 2; 3] false))) = Ok st
    /\ total_pl st = xmul100 (xdivZ (1000 - (100 * 1 + -150 * 1)) 1000).
Proof.
  eexists. split; [reflexivity|].
  destruct (total_pl_is_a_ratio (after_run (configured round_trip_strategy [1; 2; 3] false))
                                _ eq_refl) as (strat & Hs & Hpl & _).
  injection Hs as <-. exact Hpl.
Defined.

(** ** Matching entries with exits *)

Lemma first_total_some (keyed : list (string * OrderRecord)) (contract : string) (v : Z) :
  first_total keyed contract = Some v ->
  exists r, In (contract, r) keyed /\ v = total_price r.
Proof.
  unfold first_total.
  destruct (filter (fun p => String.eqb (fst p) contract) keyed) as [|[k r] l] eqn:Hf;
    [discriminate|].
  intros H; injection H as <-.
  assert (Hin : In (k, r) (filter (fun p => String.eqb (fst p) contract) keyed))
    by (rewrite Hf; now left).
  apply filter_In in Hin as [Hin Hk]. apply String.eqb_eq in Hk. cbn in Hk. subst k.
  now exists r.
Qed.

Lemma mapM_zip_In {A B : Type} (f : A -> result B) (l : list A) (l' : list B) (a : A) (b : B) :
  mapM f l = Ok l' -> In (b, a) (combine l' l) -> In a l /\ f a = Ok b.
Proof.
  revert l'; induction l as [|x l IH]; intros l'; simpl.
  - intros H; injection H as <-. intros [].
  - unfold bind. destruct (f x) as [y|] eqn:Hfx; [|discriminate].
    destruct (mapM f l) as [ys|]; [|discriminate].
    intros H; injection H as <-. simpl. intros [Heq|Hin].
    + injection Heq as <- <-. split; [now left|exact Hfx].
    + destruct (IH ys eq_refl Hin) as [H1 H2]. split; [now right|exact H2].
Qed.

Lemma match_costs_In (entries exits : list (string * OrderRecord)) (c : Z) :
  In c (match_costs entries exits) ->
  exists k e x, In (k, e) entries /\ In (k, x) exits /\ c = total_price e + total_price x.
Proof.
  unfold match_costs. intros Hin. apply in_flat_map in Hin as (k & _ & Hc).
  destruct (first_total entries k) as [a|] eqn:Ha; [|destruct Hc].
  destruct (first_total exits k) as [b|] eqn:Hb; [|destruct Hc].
  destruct Hc as [<-|[]].
  apply first_total_some in Ha as (e & He & ->).
  apply first_total_some in Hb as (x & Hx & ->).
  now exists k, e, x.
Qed.

Lemma match_costs_no_exit (entries : list (string * OrderRecord)) :
  match_costs entries [] = [].
Proof.
  unfold match_costs. induction (map fst entries) as [|k ks IH]; [reflexivity|].
  cbn [flat_map]. rewrite IH, app_nil_r. destruct (first_total entries k); reflexivity.
Qed.

Lemma round_trips_need_exits (entries : DataFrame) (costs : list Z) :
  round_trips entries [] = Ok costs -> costs = [].
Proof.
  unfold round_trips, bind. destruct (contracts entries) as [ce|]; [|discriminate].
  cbn. intros H; injection H as <-. apply match_costs_no_exit.
Qed.

(** X10 (round trips).  Every net cost the matching loop produces is the
    total price of an entry row plus the total price of an exit row with
    the same first-leg contract.  There is one net cost per entry row
    whose contract occurs among the exits', so never more than there are
    entry rows, and none at all without exits: an entry without an exit
    is skipped, and so is an exit without an entry. *)
Theorem round_trips_pair_by_contract (entries exits : DataFrame) (costs : list Z) :
  round_trips entries exits = Ok costs ->
  (forall c, In c costs ->
     exists k e x,
       In e entries /\ In x exits
       /\ contract_of e = Ok k /\ contract_of x = Ok k
       /\ c = total_price e + total_price x)
  /\ (exists ce cx,
         contracts entries = Ok ce /\ contracts exits = Ok cx
         /\ List.length costs = List.length (filter (among cx) ce))
  /\ (List.length costs <= List.length entries)%nat
  /\ (exits = [] -> costs = []).
Proof.
  unfold round_trips, bind.
  destruct (contracts entries) as [ce|] eqn:Hce; [|discriminate].
  destruct (contracts exits) as [cx|] eqn:Hcx; [|discriminate].
  intros H; injection H as <-.
  pose proof (mapM_length _ _ _ Hce) as Lce. pose proof (mapM_length _ _ _ Hcx) as Lcx.
  assert (Hlen : List.length (match_costs (combine ce entries) (combine cx exits))
                 = List.length (filter (among cx) ce)).
  { rewrite match_costs_length, !map_fst_zip by assumption. reflexivity. }
  split; [|split; [|split]].
  - intros c Hc. apply match_costs_In in Hc as (k & e & x & He & Hx & ->).
    destruct (mapM_zip_In _ _ _ _ _ Hce He) as [He1 He2].
    destruct (mapM_zip_In _ _ _ _ _ Hcx Hx) as [Hx1 Hx2].
    exists k, e, x. repeat split; assumption.
  - exists ce, cx. repeat split. exact Hlen.
  - rewrite Hlen, <- Lce. apply filter_length_le.
  - intros ->. destruct cx; [|discriminate]. cbn [combine]. apply match_costs_no_exit.
Qed.

Lemma round_trips_pair_by_contract_witness :
  exists k e x,
    In e [single_leg "X" "BTO" 100 1 1; single_leg "W" "BTO" 7 1 1]
    /\ In x [single_leg "X" "STC" (-150) 1 3]
    /\ contract_of e = Ok k /\ contract_of x = Ok k
    /\ -50 = total_price e + total_price x.
Proof.
  apply (proj1 (round_trips_pair_by_contract
                  [single_leg "X" "BTO" 100 1 1; single_leg "W" "BTO" 7 1 1]
                  [single_leg "X" "STC" (-150) 1 3] [-50] eq_refl)).
  now left.
Defined.

(** ** The reported numbers *)

Lemma np_max_spec (l : list Z) (m : Z) :
  np_max l = Ok m -> In m l /\ forall c, In c l -> c <= m.
Proof.
  destruct l as [|x l]; simpl; [discriminate|]. intros H; injection H as <-.
  revert x; induction l as [|y l IH]; intros x; simpl.
  - split; [now left|]. intros c [<-|[]]. lia.
  - destruct (IH (Z.max x y)) as [Hin Hmax]. split.
    + destruct Hin as [Heq|Hin]; [|now right; right].
      destruct (Z.max_spec x y) as [[_ Hm]|[_ Hm]]; rewrite Hm in Heq |- *;
        [right; now left|now left].
    + intros c [<-|[<-|Hc]].
      * etransitivity; [apply (Z.le_max_l x y)|]. apply Hmax. now left.
      * etransitivity; [apply (Z.le_max_r x y)|]. apply Hmax. now left.
      * apply Hmax. now right.
Qed.

Lemma count_all (f : Z -> bool) (l : list Z) :
  count f l = Z.of_nat (List.length l) <-> forall c, In c l -> f c = true.
Proof.
  unfold count. split.
  - intros H. apply Nat2Z.inj in H. apply filter_length_forallb in H.
    now apply forallb_forall.
  - intros H. apply forallb_forall in H. now rewrite filter_all.
Qed.

Lemma count_none (f : Z -> bool) (l : list Z) :
  count f l = 0 <-> forall c, In c l -> f c = false.
Proof.
  unfold count. induction l as [|x l IH]; simpl.
  - split; [intros _ c []|reflexivity].
  - destruct (f x) eqn:Hfx; simpl.
    + split; [lia|]. intros H. specialize (H x (or_introl eq_refl)). congruence.
    + rewrite IH. split.
      * intros H c [<-|Hc]; [exact Hfx|now apply H].
      * intros H c Hc. apply H. now right.
Qed.

Lemma summary_round_trips {Options : Type} (self : Backtest Options) (st : Summary) :
  snd (summary self) = Ok st ->
  exists entries exits costs,
    partition_log (trade_log (fst (summary self))) = Ok (entries, exits)
    /\ round_trips entries exits = Ok costs
    /\ matched_costs (trade_log (fst (summary self))) = Ok costs
    /\ np_max costs = Ok (largest_loss st)
    /\ total_trades st = Z.of_nat (List.length exits)
    /\ win_number st = count (fun c => c <? 0) costs
    /\ win_pct st = xdivZ (win_number st) (total_trades st)
    /\ profit_factor st = xdivZ (win_number st) (count (fun c => c >=? 0) costs)
    /\ avg_profit st = xdivZ (sum (map Z.opp costs)) (Z.of_nat (List.length costs))
    /\ (List.length entries + List.length exits
        = List.length (trade_log self))%nat.
Proof.
  intros Hsum. apply summary_inv in Hsum as (strat & _ & Hlog & Hstat).
  apply statistics_inv in Hstat
    as (returns & mask & costs & largest & caps & final & _ & Hm & Hc & Hl & _ & _ & ->).
  exists (loc (trade_log (fst (summary self))) mask),
         (loc (trade_log (fst (summary self))) (map negb mask)), costs.
  unfold matched_costs, partition_log. rewrite Hm. cbn [bind fst snd].
  cbn [largest_loss total_trades win_number win_pct profit_factor avg_profit].
  repeat (split; [first [reflexivity|assumption]|]).
  rewrite <- length_app.
  rewrite (Permutation_length
             (loc_partition _ mask (mapM_length _ _ _ (proj2 (entries_mask_inv _ _ Hm))))).
  rewrite Hlog. apply write_capital_length.
Qed.

(** X11 (which ratios can be non-finite).  Whenever [summary] returns its
    table there is at least one matched round trip and at least one exit
    row, so the win rate and the average profit are ordinary numbers.
    The profit factor is the one ratio that can be infinite: it is
    [+inf] exactly when no matched round trip is a loss, and an ordinary
    number otherwise; it is never [NaN]. *)
Theorem reported_ratios {Options : Type} (self : Backtest Options) (st : Summary) :
  snd (summary self) = Ok st ->
  exists costs,
    matched_costs (trade_log (fst (summary self))) = Ok costs
    /\ costs <> []
    /\ 1 <= total_trades st
    /\ is_finite (win_pct st) = true
    /\ is_finite (avg_profit st) = true
    /\ (profit_factor st = PInf <-> forall c, In c costs -> c < 0)
    /\ ((exists c, In c costs /\ 0 <= c) -> is_finite (profit_factor st) = true)
    /\ profit_factor st <> NaN.
Proof.
  intros Hsum.
  destruct (summary_round_trips self st Hsum)
    as (entries & exits & costs & _ & Hrt & Hmc & Hmax & Htt & Hw & Hwp & Hpf & Hap & _).
  exists costs. split; [exact Hmc|].
  assert (Hne : costs <> []) by (intros ->; discriminate Hmax).
  assert (Hex : exits <> []).
  { intros ->. apply Hne.
    now apply (round_trips_need_exits entries). }
  assert (Hlen : (1 <= List.length costs)%nat) by (destruct costs; [congruence|simpl; lia]).
  assert (Hlenx : (1 <= List.length exits)%nat) by (destruct exits; [congruence|simpl; lia]).
  pose proof (count_complement costs) as Hcc.
  split; [exact Hne|]. split; [lia|].
  split; [rewrite Hwp; unfold xdivZ; destruct (Z.eqb_spec (total_trades st) 0);
          [lia|reflexivity]|].
  split; [rewrite Hap; unfold xdivZ;
          destruct (Z.eqb_spec (Z.of_nat (List.length costs)) 0); [lia|reflexivity]|].
  assert (Hnonneg : 0 <= count (fun c => c >=? 0) costs) by (unfold count; lia).
  split; [|split].
  - rewrite Hpf, Hw. unfold xdivZ.
    destruct (Z.eqb_spec (count (fun c : Z => c >=? 0) costs) 0) as [Hz|Hnz].
    + replace (0 <? count (fun c : Z => c <? 0) costs) with true
        by (symmetry; apply Z.ltb_lt; lia).
      split; [intros _|reflexivity].
      intros c Hc. apply count_none with (c := c) in Hz; [|exact Hc].
      rewrite Z.geb_leb in Hz. apply Z.leb_gt in Hz. exact Hz.
    + split; [discriminate|]. intros Hall. exfalso. apply Hnz.
      apply count_none. intros c Hc. specialize (Hall c Hc).
      rewrite Z.geb_leb. apply Z.leb_gt. exact Hall.
  - intros (c & Hc & Hge). rewrite Hpf. unfold xdivZ.
    destruct (Z.eqb_spec (count (fun c : Z => c >=? 0) costs) 0) as [Hz|Hnz];
      [|reflexivity].
    apply count_none with (c := c) in Hz; [|exact Hc].
    rewrite Z.geb_leb in Hz. apply Z.leb_gt in Hz. lia.
  - rewrite Hpf, Hw. unfold xdivZ.
    destruct (Z.eqb_spec (count (fun c : Z => c >=? 0) costs) 0) as [Hz|Hnz];
      [|discriminate].
    replace (0 <? count (fun c : Z => c <? 0) costs) with true
      by (symmetry; apply Z.ltb_lt; lia).
    discriminate.
Qed.

Lemma reported_ratios_witness :
  exists st,
    snd (summary (after_run (configured round_trip_strategy [1; 2; 3] false))) = Ok st
    /\ profit_factor st = PInf
    /\ is_finite (win_pct st) = true.
Proof.
  eexists. split; [reflexivity|].
  destruct (reported_ratios (after_run (configured round_trip_strategy [1; 2; 3] false))
                            _ eq_refl)
    as (costs & Hcosts & _ & _ & Hwp & _ & Hpf & _).
  split; [|exact Hwp].
  apply Hpf. injection Hcosts as <-. intros c [<-|[]]. reflexivity.
Defined.

(** X12 (largest loss).  The largest loss [summary] reports is the net
    cost of one of the matched round trips, and no matched round trip
    has a greater one.  It is below zero exactly when every matched
    round trip is a win. *)
Theorem largest_loss_is_the_maximum {Options : Type} (self : Backtest Options)
        (st : Summary) :
  snd (summary self) = Ok st ->
  exists costs,
    matched_costs (trade_log (fst (summary self))) = Ok costs
    /\ In (largest_loss st) costs
    /\ (forall c, In c costs -> c <= largest_loss st)
    /\ (largest_loss st < 0 <-> win_number st = Z.of_nat (List.length costs)).
Proof.
  intros Hsum.
  destruct (summary_round_trips self st Hsum)
    as (entries & exits & costs & _ & _ & Hmc & Hmax & _ & Hw & _).
  apply np_max_spec in Hmax as [Hin Hle].
  exists costs. split; [exact Hmc|]. split; [exact Hin|]. split; [exact Hle|].
  rewrite Hw, count_all. split.
  - intros Hneg c Hc. apply Z.ltb_lt. specialize (Hle c Hc). lia.
  - intros Hall. apply Z.ltb_lt. now apply Hall.
Qed.

Lemma largest_loss_is_the_maximum_witness :
  exists st,
    snd (summary (after_run (configured reentry_strategy [1; 2; 3] true))) = Ok st
    /\ In (largest_loss st) [-50; -50].
Proof.
  eexists. split; [reflexivity|].
  destruct (largest_loss_is_the_maximum
              (after_run (configured reentry_strategy [1; 2; 3] true)) _ eq_refl)
    as (costs & Hcosts & Hin & _).
  injection Hcosts as <-. exact Hin.
Defined.

(** X13 (rows and trades).  [summary] puts every row of the log either
    with the entries or with the exits; the total number of trades it
    reports is the number of rows that are not entries, and the number
    of wins is at most the number of entries. *)
Theorem every_row_is_entry_or_exit {Options : Type} (self : Backtest Options)
        (st : Summary) :
  snd (summary self) = Ok st ->
  exists entries exits,
    partition_log (trade_log (fst (summary self))) = Ok (entries, exits)
    /\ (List.length entries + List.length exits = List.length (trade_log self))%nat
    /\ total_trades st = Z.of_nat (List.length (trade_log self))
                         - Z.of_nat (List.length entries)
    /\ 0 <= win_number st <= Z.of_nat (List.length entries).
Proof.
  intros Hsum.
  destruct (summary_round_trips self st Hsum)
    as (entries & exits & costs & Hp & Hrt & _ & _ & Htt & Hw & _ & _ & _ & Hlen).
  exists entries, exits. split; [exact Hp|]. split; [exact Hlen|]. split; [lia|].
  rewrite Hw. unfold count.
  assert (Hc : (List.length costs <= List.length entries)%nat).
  { unfold round_trips, bind in Hrt.
    destruct (contracts entries) as [ce|] eqn:Hce; [|discriminate].
    destruct (contracts exits) as [cx|] eqn:Hcx; [|discriminate].
    injection Hrt as <-.
    rewrite match_costs_length.
    rewrite (map_fst_zip ce entries) by exact (mapM_length _ _ _ Hce).
    rewrite <- (mapM_length _ _ _ Hce). apply filter_length_le. }
  pose proof (filter_length_le (fun c => c <? 0) costs). lia.
Qed.

Lemma every_row_is_entry_or_exit_witness :
  exists st,
    snd (summary (after_run (configured reentry_strategy [1; 2; 3] true))) = Ok st
    /\ total_trades st = 3 - 2.
Proof.
  eexists. split; [reflexivity|].
  destruct (every_row_is_entry_or_exit
              (after_run (configured reentry_strategy [1; 2; 3] true)) _ eq_refl)
    as (entries & exits & Hp & _ & Htt & _).
  injection Hp as <- <-. exact Htt.
Defined.

(** ** The dates of the daily series *)

Lemma assoc_In (d : Z) (l : list (Z * Z)) :
  assoc d l <> None <-> In d (map fst l).
Proof.
  induction l as [|[d' c] l IH]; simpl.
  - split; [congruence|intros []].
  - destruct (Z.eqb_spec d d') as [->|Hne].
    + split; [intros _; now left|intros _; discriminate].
    + rewrite IH. split; [intros H; now right|]. intros [H|H]; [congruence|exact H].
Qed.

Lemma last_on_In (d : Z) (rows : list (Z * Z)) :
  last_on d rows <> None <-> In d (map fst rows).
Proof.
  unfold last_on.
  assert (Hgen : forall acc,
            fold_left (fun a p => if fst p =? d then Some (snd p) else a) rows acc <> None
            <-> acc <> None \/ In d (map fst rows)).
  { induction rows as [|[d' c] rows IH]; intros acc; simpl.
    - split; [now left|]. intros [H|[]]; exact H.
    - rewrite IH. destruct (Z.eqb_spec d' d) as [->|Hne].
      + split; [intros _; right; now left|intros _; left; discriminate].
      + split.
        * intros [H|H]; [now left|right; now right].
        * intros [H|[H|H]]; [now left|congruence|now right]. }
  rewrite Hgen. split; [intros [H|H]; [congruence|exact H]|now right].
Qed.

Lemma Sorted_lt_NoDup (l : list Z) : Sorted Z.lt l -> NoDup l.
Proof.
  intros Hs. apply Sorted_StronglySorted in Hs; [|exact Z.lt_strorder.(StrictOrder_Transitive)].
  induction Hs as [|a l Hs IH Hall]; constructor; [|exact IH].
  intros Hin. rewrite Forall_forall in Hall. specialize (Hall a Hin). lia.
Qed.

(** X14 (one value per date).  On a log with its capital column, the
    daily capital series has exactly one value for every date that
    occurs in the log and for no other, so it is never longer than the
    log. *)
Theorem one_daily_capital_per_date (initial : Z) (df : DataFrame) :
  exists daily,
    daily_capital (write_capital initial df) = Ok daily
    /\ NoDup (map fst daily)
    /\ (forall d, In d (map fst daily) <-> In d (row_dates df))
    /\ (List.length daily <= List.length df)%nat.
Proof.
  unfold daily_capital. rewrite dated_rows_written. cbn [bind].
  eexists. split; [reflexivity|].
  destruct (grouping_spec (dated_capital initial df)) as (Hsorted & Hassoc & _).
  assert (Hdates : map fst (dated_capital initial df) = row_dates df).
  { unfold dated_capital, row_dates. apply map_fst_zip.
    now rewrite length_map, capital_column_length. }
  assert (Hiff : forall d,
            In d (map fst (fold_left group_row (dated_capital initial df) []))
            <-> In d (row_dates df)).
  { intros d. rewrite <- assoc_In, Hassoc, last_on_In, Hdates. reflexivity. }
  pose proof (Sorted_lt_NoDup _ Hsorted) as Hnd.
  split; [exact Hnd|]. split; [exact Hiff|].
  rewrite <- (length_map fst), <- (length_map (fun r => Totals.date (totals r)) df).
  apply NoDup_incl_length; [exact Hnd|]. intros d Hd. now apply Hiff.
Qed.
